(** * The streaming orchestration layer of [server/unified-server.ts]

    A shallow embedding of the server: the phrase aggregator ([TTSQueue]),
    the registry of connected clients, the broadcast function, the
    supervision of the synthesis worker ([startTTS], [restartTTS]), the
    websocket handlers and the feed loop.

    The server is a single-threaded event loop over module-level mutable
    state.  It is modelled as a state record, a small monad for handler
    bodies (state plus JavaScript exceptions, the state surviving a
    throw), and one handler per event the runtime can deliver. *)

From Stdlib Require Import List ZArith NArith Lia Bool String Ascii PeanoNat.
From Stdlib Require Import Strings.Byte.
Import ListNotations.

(* ===================================================================== *)
(** * JavaScript strings *)
(* ===================================================================== *)

Module JsString.

(** A JavaScript string is a sequence of UTF-16 code units. *)
Definition jsstring : Type := list N.

(** An ASCII literal as a JavaScript string. *)
Definition lit (s : string) : jsstring :=
  map N_of_ascii (list_ascii_of_string s).

(** ECMAScript WhiteSpace and LineTerminator code points, the ones
    [String.prototype.trim] strips.  All of them are in the basic plane,
    so a test per code unit is exact. *)
Definition white_space : list N :=
  [ 9; 10; 11; 12; 13; 32; 160; 5760;
    8192; 8193; 8194; 8195; 8196; 8197; 8198; 8199; 8200; 8201; 8202;
    8232; 8233; 8239; 8287; 12288; 65279 ]%N.

Definition isWhiteSpace (c : N) : bool := existsb (N.eqb c) white_space.

Fixpoint trimStart (s : jsstring) : jsstring :=
  match s with
  | [] => []
  | c :: s' => if isWhiteSpace c then trimStart s' else s
  end.

Definition trimEnd (s : jsstring) : jsstring := rev (trimStart (rev s)).

(** [s.trim()] *)
Definition trim (s : jsstring) : jsstring := trimEnd (trimStart s).

(** [s.substring(n)] for [n >= 0]. *)
Definition substring (n : nat) (s : jsstring) : jsstring := skipn n s.

(** Truthiness of a string: non-empty. *)
Definition truthy (s : jsstring) : bool :=
  match s with [] => false | _ :: _ => true end.

Definition eqb (a b : jsstring) : bool :=
  if list_eq_dec N.eq_dec a b then true else false.

(** Whitespace-only strings (the empty string included). *)
Definition blank (s : jsstring) : bool := forallb isWhiteSpace s.

End JsString.
Import JsString.

(* ===================================================================== *)
(** * Data *)
(* ===================================================================== *)

(** Identity of a [ServerWebSocket] object handed over by the runtime. *)
Definition socket : Type := nat.

(** The JSON messages the server sends.  [JSON.stringify] of the object
    literals in the source is injective on them, so the tagged form stands
    for the text; the [audioFormat] member of [connected] is a constant. *)
Inductive ServerMessage : Type :=
| MsgConnected (clientId : jsstring)
| MsgTextChunk (text : jsstring)
| MsgTextComplete
| MsgError (message : jsstring).

(** What [ws.send] is given: a JSON text or a binary [Buffer]. *)
Inductive Payload : Type :=
| Text (m : ServerMessage)
| Binary (pcm : list byte).

(** [type WebSocketClient = { ws: any; id: string }].  Clients are objects
    kept in a [Set], which compares by reference: [addr] is the reference. *)
Record WebSocketClient : Type := mkClient {
  addr : nat;
  ws : socket;
  id : jsstring
}.

(** A [ChildProcess] spawned with [stdio: ['pipe', 'pipe', 'pipe']]. *)
Record ChildProcess : Type := mkProc {
  pid : nat;
  stdin : option nat
}.

(** The callbacks given to [setTimeout]:
    [() => this.flush()] and [() => { ttsProcess = startTTS(); }]. *)
Inductive Callback : Type := CbFlush | CbRestart.

Record Timer : Type := mkTimer {
  handle : nat;
  due : nat;
  callback : Callback
}.

(** [class TTSQueue] *)
Record TTSQueue : Type := mkQueue {
  queue : list jsstring;
  buffer : jsstring;
  timeout : option nat
}.

(** The module-level variables of the server, the runtime's tables (clock,
    pending timers, allocation counters, generation requests whose handler
    is suspended in [for await]), the condition of the peers (sockets whose
    [send] throws, sockets whose connection is gone and whose [send]
    returns 0, pipes whose [write] throws) and the log of effects: the
    calls of [send] and of [write] that returned, with their data. *)
Record State : Type := mkState {
  ttsQueue : TTSQueue;
  clients : list WebSocketClient;
  ttsProcess : option ChildProcess;
  restarts : Z;
  now : nat;
  timers : list Timer;
  next_handle : nat;
  next_pid : nat;
  next_addr : nat;
  requests : list (nat * socket);
  next_request : nat;
  closed : list socket;
  gone : list socket;
  broken : list nat;
  sent : list (socket * Payload);
  written : list (nat * jsstring)
}.

Definition with_ttsQueue (q : TTSQueue) (s : State) : State :=
  mkState q (clients s) (ttsProcess s) (restarts s) (now s) (timers s)
    (next_handle s) (next_pid s) (next_addr s) (requests s) (next_request s)
    (closed s) (gone s) (broken s) (sent s) (written s).

Definition with_clients (c : list WebSocketClient) (s : State) : State :=
  mkState (ttsQueue s) c (ttsProcess s) (restarts s) (now s) (timers s)
    (next_handle s) (next_pid s) (next_addr s) (requests s) (next_request s)
    (closed s) (gone s) (broken s) (sent s) (written s).

Definition with_ttsProcess (p : option ChildProcess) (s : State) : State :=
  mkState (ttsQueue s) (clients s) p (restarts s) (now s) (timers s)
    (next_handle s) (next_pid s) (next_addr s) (requests s) (next_request s)
    (closed s) (gone s) (broken s) (sent s) (written s).

Definition with_restarts (r : Z) (s : State) : State :=
  mkState (ttsQueue s) (clients s) (ttsProcess s) r (now s) (timers s)
    (next_handle s) (next_pid s) (next_addr s) (requests s) (next_request s)
    (closed s) (gone s) (broken s) (sent s) (written s).

Definition with_now (t : nat) (s : State) : State :=
  mkState (ttsQueue s) (clients s) (ttsProcess s) (restarts s) t (timers s)
    (next_handle s) (next_pid s) (next_addr s) (requests s) (next_request s)
    (closed s) (gone s) (broken s) (sent s) (written s).

Definition with_timers (t : list Timer) (s : State) : State :=
  mkState (ttsQueue s) (clients s) (ttsProcess s) (restarts s) (now s) t
    (next_handle s) (next_pid s) (next_addr s) (requests s) (next_request s)
    (closed s) (gone s) (broken s) (sent s) (written s).

Definition with_next_handle (n : nat) (s : State) : State :=
  mkState (ttsQueue s) (clients s) (ttsProcess s) (restarts s) (now s) (timers s)
    n (next_pid s) (next_addr s) (requests s) (next_request s)
    (closed s) (gone s) (broken s) (sent s) (written s).

Definition with_next_pid (n : nat) (s : State) : State :=
  mkState (ttsQueue s) (clients s) (ttsProcess s) (restarts s) (now s) (timers s)
    (next_handle s) n (next_addr s) (requests s) (next_request s)
    (closed s) (gone s) (broken s) (sent s) (written s).

Definition with_next_addr (n : nat) (s : State) : State :=
  mkState (ttsQueue s) (clients s) (ttsProcess s) (restarts s) (now s) (timers s)
    (next_handle s) (next_pid s) n (requests s) (next_request s)
    (closed s) (gone s) (broken s) (sent s) (written s).

Definition with_requests (r : list (nat * socket)) (s : State) : State :=
  mkState (ttsQueue s) (clients s) (ttsProcess s) (restarts s) (now s) (timers s)
    (next_handle s) (next_pid s) (next_addr s) r (next_request s)
    (closed s) (gone s) (broken s) (sent s) (written s).

Definition with_next_request (n : nat) (s : State) : State :=
  mkState (ttsQueue s) (clients s) (ttsProcess s) (restarts s) (now s) (timers s)
    (next_handle s) (next_pid s) (next_addr s) (requests s) n
    (closed s) (gone s) (broken s) (sent s) (written s).

Definition with_closed (c : list socket) (s : State) : State :=
  mkState (ttsQueue s) (clients s) (ttsProcess s) (restarts s) (now s) (timers s)
    (next_handle s) (next_pid s) (next_addr s) (requests s) (next_request s)
    c (gone s) (broken s) (sent s) (written s).

Definition with_gone (g : list socket) (s : State) : State :=
  mkState (ttsQueue s) (clients s) (ttsProcess s) (restarts s) (now s) (timers s)
    (next_handle s) (next_pid s) (next_addr s) (requests s) (next_request s)
    (closed s) g (broken s) (sent s) (written s).

Definition with_broken (b : list nat) (s : State) : State :=
  mkState (ttsQueue s) (clients s) (ttsProcess s) (restarts s) (now s) (timers s)
    (next_handle s) (next_pid s) (next_addr s) (requests s) (next_request s)
    (closed s) (gone s) b (sent s) (written s).

Definition with_sent (l : list (socket * Payload)) (s : State) : State :=
  mkState (ttsQueue s) (clients s) (ttsProcess s) (restarts s) (now s) (timers s)
    (next_handle s) (next_pid s) (next_addr s) (requests s) (next_request s)
    (closed s) (gone s) (broken s) l (written s).

Definition with_written (l : list (nat * jsstring)) (s : State) : State :=
  mkState (ttsQueue s) (clients s) (ttsProcess s) (restarts s) (now s) (timers s)
    (next_handle s) (next_pid s) (next_addr s) (requests s) (next_request s)
    (closed s) (gone s) (broken s) (sent s) l.

(* ===================================================================== *)
(** * Handler bodies: state and exceptions *)
(* ===================================================================== *)

(** How a piece of JavaScript ends: normally with a value, or by a throw.
    Mutations made before a throw stay. *)
Inductive completion (A : Type) : Type :=
| Normal (a : A)
| Thrown.
Arguments Normal {A} a.
Arguments Thrown {A}.

Definition JS (A : Type) : Type := State -> completion A * State.

Definition ret {A} (a : A) : JS A := fun s => (Normal a, s).

Definition bind {A B} (m : JS A) (k : A -> JS B) : JS B :=
  fun s =>
    match m s with
    | (Normal a, s') => k a s'
    | (Thrown, s') => (Thrown, s')
    end.

Definition throw {A} : JS A := fun s => (Thrown, s).

(** [try { body } catch { handler }] *)
Definition try_catch {A} (body handler : JS A) : JS A :=
  fun s =>
    match body s with
    | (Normal a, s') => (Normal a, s')
    | (Thrown, s') => handler s'
    end.

Definition gets {A} (f : State -> A) : JS A := fun s => (Normal (f s), s).

Definition modify (f : State -> State) : JS unit := fun s => (Normal tt, f s).

Declare Scope js_scope.
Delimit Scope js_scope with js.
Notation "x <- m ;; k" := (bind m (fun x => k))
  (at level 61, m at next level, right associativity) : js_scope.
Notation "m ;; k" := (bind m (fun _ => k))
  (at level 61, right associativity) : js_scope.
Open Scope js_scope.

(** The state a handler leaves, whether it returned or threw. *)
Definition exec {A} (m : JS A) (s : State) : State := snd (m s).

(** [xs.forEach(f)] over a snapshot of the elements. *)
Fixpoint forEach {A} (xs : list A) (f : A -> JS unit) : JS unit :=
  match xs with
  | [] => ret tt
  | x :: xs' => f x ;; forEach xs' f
  end.

(* ===================================================================== *)
(** * Runtime primitives *)
(* ===================================================================== *)

(** [setTimeout(cb, delay)]: a pending timer due [delay] ms from now. *)
Definition setTimeout (cb : Callback) (delay : nat) : JS nat :=
  fun s =>
    let h := next_handle s in
    (Normal h,
     with_next_handle (S h)
       (with_timers (timers s ++ [mkTimer h (now s + delay) cb]) s)).

(** [clearTimeout(h)]: nothing happens when [h] is no longer pending. *)
Definition clearTimeout (h : nat) : JS unit :=
  modify (fun s =>
    with_timers (filter (fun t => negb (handle t =? h)) (timers s)) s).

(** What [send] of the runtime's [ServerWebSocket] returns: 0 when the
    data was dropped because the connection is gone; otherwise the data
    was taken (the number of bytes sent, or -1 when it was enqueued under
    backpressure). *)
Inductive SendStatus : Type := Dropped | Taken.

(** [ws.send(data)]: throws on a socket that can no longer accept data,
    and otherwise returns its status.  Every call in the server is an
    expression statement, so the status is never looked at; [sent] logs
    the calls that returned, whatever their status. *)
Definition ws_send (w : socket) (data : Payload) : JS SendStatus :=
  fun s =>
    if existsb (Nat.eqb w) (closed s) then (Thrown, s)
    else (Normal (if existsb (Nat.eqb w) (gone s) then Dropped else Taken),
          with_sent (sent s ++ [(w, data)]) s).

(** [proc.stdin.write(chunk)]: throws on a broken pipe. *)
Definition stdin_write (pipe : nat) (chunk : jsstring) : JS unit :=
  fun s =>
    if existsb (Nat.eqb pipe) (broken s) then (Thrown, s)
    else (Normal tt, with_written (written s ++ [(pipe, chunk)]) s).

(** [spawn('uv', [...], { stdio: ['pipe', 'pipe', 'pipe'] })] *)
Definition spawn : JS ChildProcess :=
  fun s =>
    let p := next_pid s in
    (Normal (mkProc p (Some p)), with_next_pid (S p) s).

(* ===================================================================== *)
(** * [class TTSQueue] *)
(* ===================================================================== *)

Definition set_queue (l : list jsstring) (q : TTSQueue) : TTSQueue :=
  mkQueue l (buffer q) (timeout q).
Definition set_buffer (b : jsstring) (q : TTSQueue) : TTSQueue :=
  mkQueue (queue q) b (timeout q).
Definition set_timeout (t : option nat) (q : TTSQueue) : TTSQueue :=
  mkQueue (queue q) (buffer q) t.

Definition update_queue (f : TTSQueue -> TTSQueue) : JS unit :=
  modify (fun s => with_ttsQueue (f (ttsQueue s)) s).

(** [this.timeout && clearTimeout(this.timeout)] *)
Definition clear_pending : JS unit :=
  t <- gets (fun s => timeout (ttsQueue s)) ;;
  match t with
  | Some h => clearTimeout h
  | None => ret tt
  end.

(** [add = (text) => { this.buffer += text; ...; this.timeout =
    setTimeout(() => this.flush(), 200); }] *)
Definition add (text : jsstring) : JS unit :=
  update_queue (fun q => set_buffer (buffer q ++ text) q) ;;
  clear_pending ;;
  h <- setTimeout CbFlush 200 ;;
  update_queue (set_timeout (Some h)).

(** [flush = () => { if (this.buffer.trim()) { this.queue.push(...);
    this.buffer = ''; } ...; this.timeout = null; }] *)
Definition flush : JS unit :=
  b <- gets (fun s => buffer (ttsQueue s)) ;;
  (if truthy (trim b)
   then update_queue (fun q => set_queue (queue q ++ [trim b]) q) ;;
        update_queue (set_buffer [])
   else ret tt) ;;
  clear_pending ;;
  update_queue (set_timeout None).

(** [next = () => this.queue.shift() || null] *)
Definition next : JS (option jsstring) :=
  l <- gets (fun s => queue (ttsQueue s)) ;;
  match l with
  | [] => ret None
  | x :: l' =>
      update_queue (set_queue l') ;;
      ret (if truthy x then Some x else None)
  end.

(** [isEmpty = () => !this.queue.length] *)
Definition isEmpty : JS bool :=
  gets (fun s => match queue (ttsQueue s) with [] => true | _ => false end).

(** [size = () => this.queue.length] *)
Definition size : JS nat := gets (fun s => List.length (queue (ttsQueue s))).

(** [clear = () => { this.flush(); this.queue = []; }] *)
Definition clear : JS unit :=
  flush ;;
  update_queue (set_queue []).

(* ===================================================================== *)
(** * Broadcast and worker supervision *)
(* ===================================================================== *)

(** [clients.delete(client)] *)
Definition Set_delete (c : WebSocketClient) : JS unit :=
  modify (fun s =>
    with_clients (filter (fun x => negb (addr x =? addr c)) (clients s)) s).

(** [clients.add(client)] *)
Definition Set_add (c : WebSocketClient) : JS unit :=
  modify (fun s =>
    if existsb (fun x => addr x =? addr c) (clients s) then s
    else with_clients (clients s ++ [c]) s).

(** [const broadcast = (data, onError?) => { clients.forEach(client => {
      try { client.ws.send(data); }
      catch { onError?.(client) || clients.delete(client); } }); }]
    The callback is taken by the truth value it returns.  Only the client
    being visited is ever deleted, so iterating the set as it was on entry
    visits the clients [Set.prototype.forEach] visits. *)
Definition broadcast (data : Payload)
    (onError : option (WebSocketClient -> bool)) : JS unit :=
  cs <- gets clients ;;
  forEach cs (fun client =>
    try_catch (ws_send (ws client) data ;; ret tt)
      (match onError with
       | Some f => if f client then ret tt else Set_delete client
       | None => Set_delete client
       end)).

(** [startTTS]: spawns the worker.  The listeners it installs on the new
    process are the [ProcStdout], [ProcError] and [ProcExit] cases of
    [dispatch] below. *)
Definition startTTS : JS ChildProcess := spawn.

Definition tts_unavailable : jsstring := lit "TTS unavailable".

(** [const restartTTS = () => { if (restarts++ < 5) { setTimeout(() => {
      ttsProcess = startTTS(); }, 1000); } else { broadcast(...error...); } }] *)
Definition restartTTS : JS unit :=
  r <- gets restarts ;;
  modify (with_restarts (r + 1)) ;;
  if (r <? 5)%Z
  then (_ <- setTimeout CbRestart 1000 ;; ret tt)
  else broadcast (Text (MsgError tts_unavailable)) None.

(** [proc.on('exit', code => code && restartTTS())]: the exit code is a
    number, or [null] when the process was ended by a signal. *)
Definition on_exit (code : option Z) : JS unit :=
  match code with
  | Some c => if (c =? 0)%Z then ret tt else restartTTS
  | None => ret tt
  end.

(** [proc.on('error', err => { ...; restartTTS(); })] *)
Definition on_error : JS unit := restartTTS.

(** [proc.stdout?.on('data', (pcm: Buffer) => broadcast(pcm))] *)
Definition on_stdout (pcm : list byte) : JS unit :=
  broadcast (Binary pcm) None.

(** ['\n'] *)
Definition newline : jsstring := [10%N].

(** One iteration of the feed loop, up to its 50 ms sleep (the counter
    only drives logging):
    [if (!ttsQueue.isEmpty() && ttsProcess?.stdin) { const text =
       ttsQueue.next(); if (text) { try { ttsProcess.stdin.write(text +
       '\n'); } catch (e) { ...; restartTTS(); } } }] *)
Definition feed : JS unit :=
  empty <- isEmpty ;;
  proc <- gets ttsProcess ;;
  match (if empty then None else proc) with
  | Some (mkProc _ (Some pipe)) =>
      text <- next ;;
      match text with
      | Some t => try_catch (stdin_write pipe (t ++ newline)) restartTTS
      | None => ret tt
      end
  | _ => ret tt
  end.

(** The callbacks of the two kinds of timer. *)
Definition fire (cb : Callback) : JS unit :=
  match cb with
  | CbFlush => flush
  | CbRestart => p <- startTTS ;; modify (with_ttsProcess (Some p))
  end.

(** Timers run in order of due time, then of creation. *)
Definition earlier (a b : Timer) : bool :=
  (due a <? due b) || ((due a =? due b) && (handle a <=? handle b)).

Fixpoint earliest_due (t : nat) (ts : list Timer) : option Timer :=
  match ts with
  | [] => None
  | x :: ts' =>
      if due x <=? t
      then match earliest_due t ts' with
           | Some y => Some (if earlier x y then x else y)
           | None => Some x
           end
      else earliest_due t ts'
  end.

Fixpoint run_due (fuel : nat) : JS unit :=
  match fuel with
  | O => ret tt
  | S fuel' =>
      ts <- gets timers ;;
      t <- gets now ;;
      match earliest_due t ts with
      | None => ret tt
      | Some x =>
          clearTimeout (handle x) ;;
          fire (callback x) ;;
          run_due fuel'
      end
  end.

(** [d] ms pass, then every timer that has become due runs.  No callback
    arms a timer with a zero delay, so the timers pending on entry bound
    the number of callbacks to run. *)
Definition elapse (d : nat) : JS unit :=
  modify (fun s => with_now (now s + d) s) ;;
  n <- gets (fun s => List.length (timers s)) ;;
  run_due n.

(* ===================================================================== *)
(** * The websocket handlers *)
(* ===================================================================== *)

(** The values [data.type] and [data.prompt] can hold after [JSON.parse]. *)
Inductive JsVal : Type :=
| JUndefined
| JNull
| JBool (b : bool)
| JNumber (z : Z)
| JString (s : jsstring)
| JObject.

Definition val_truthy (v : JsVal) : bool :=
  match v with
  | JUndefined | JNull => false
  | JBool b => b
  | JNumber z => negb (z =? 0)%Z
  | JString s => truthy s
  | JObject => true
  end.

(** [JSON.parse(msg.toString())] as far as the handler looks at it: the
    parse throws, or gives [null] (reading a property of it throws), or
    gives a value whose [type] and [prompt] properties read as shown. *)
Inductive Incoming : Type :=
| BadJson
| JsonNull
| JsonValue (type prompt : JsVal).

Definition is_chat (v : JsVal) : bool :=
  match v with
  | JString s => eqb s (lit "chat")
  | _ => false
  end.

Definition invalid_format : jsstring := lit "Invalid format".
Definition failed_to_process : jsstring := lit "Failed to process".

(** [streamText({...})] followed by the first suspension of [for await]:
    the handler now waits for the upstream generation. *)
Definition suspend (w : socket) : JS unit :=
  modify (fun s =>
    with_next_request (S (next_request s))
      (with_requests (requests s ++ [(next_request s, w)]) s)).

(** The handler of request [rid] stops waiting. *)
Definition finish (rid : nat) : JS unit :=
  modify (fun s =>
    with_requests (filter (fun r => negb (fst r =? rid)) (requests s)) s).

(** The handler of request [rid] is resumed, if there is one. *)
Definition resume (rid : nat) (k : socket -> JS unit) : JS unit :=
  r <- gets (fun s => find (fun r => fst r =? rid) (requests s)) ;;
  match r with
  | Some (_, w) => k w
  | None => ret tt
  end.

(** [async message(ws, msg)] up to its first suspension. *)
Definition message (w : socket) (msg : Incoming) : JS unit :=
  try_catch
    (match msg with
     | BadJson | JsonNull => throw
     | JsonValue type prompt =>
         if is_chat type && val_truthy prompt
         then clear ;; suspend w
         else ws_send w (Text (MsgError invalid_format)) ;; ret tt
     end)
    (ws_send w (Text (MsgError failed_to_process)) ;; ret tt).

(** One turn of [for await (const text of result.textStream)]:
    [ws.send(JSON.stringify({ type: 'text_chunk', text }));
     ttsQueue.add(text);] inside the handler's [try]. *)
Definition on_text (rid : nat) (text : jsstring) : JS unit :=
  resume rid (fun w =>
    try_catch
      (ws_send w (Text (MsgTextChunk text)) ;; add text)
      (finish rid ;; ws_send w (Text (MsgError failed_to_process)) ;; ret tt)).

(** The stream ends:
    [ttsQueue.flush(); ws.send(JSON.stringify({ type: 'text_complete' }));] *)
Definition on_end (rid : nat) : JS unit :=
  resume rid (fun w =>
    finish rid ;;
    try_catch
      (flush ;; ws_send w (Text MsgTextComplete) ;; ret tt)
      (ws_send w (Text (MsgError failed_to_process)) ;; ret tt)).

(** The stream throws: the handler's [catch]. *)
Definition on_fail (rid : nat) : JS unit :=
  resume rid (fun w =>
    finish rid ;; ws_send w (Text (MsgError failed_to_process)) ;; ret tt).

(** [open(ws)].  [draw] is [Math.random().toString(36)], the base-36
    rendering of the runtime's random number. *)
Definition open (w : socket) (draw : jsstring) : JS unit :=
  let id := substring 7 draw in
  a <- gets next_addr ;;
  modify (with_next_addr (S a)) ;;
  let client := mkClient a w id in
  Set_add client ;;
  ws_send w (Text (MsgConnected id)) ;;
  ret tt.

(** [close(ws)]: [[...clients].find(c => c.ws === ws)], then delete. *)
Definition close (w : socket) : JS unit :=
  c <- gets (fun s => find (fun c => ws c =? w) (clients s)) ;;
  match c with
  | Some client => Set_delete client
  | None => ret tt
  end.

(* ===================================================================== *)
(** * The event loop *)
(* ===================================================================== *)

(** What the runtime and the peers can do to the server.  The last three
    change the condition of a peer: from then on [send] on the socket
    throws, [send] on the socket returns 0, [write] on the pipe throws. *)
Inductive Event : Type :=
| WsOpen (w : socket) (draw : jsstring)
| WsMessage (w : socket) (msg : Incoming)
| WsClose (w : socket)
| StreamText (rid : nat) (text : jsstring)
| StreamEnd (rid : nat)
| StreamFail (rid : nat)
| ProcStdout (p : nat) (pcm : list byte)
| ProcError (p : nat)
| ProcExit (p : nat) (code : option Z)
| FeedTick
| Elapse (d : nat)
| SocketDies (w : socket)
| SocketGone (w : socket)
| PipeBreaks (p : nat).

(** Listeners exist on the processes [startTTS] has spawned. *)
Definition listening (p : nat) (m : JS unit) : JS unit :=
  n <- gets next_pid ;;
  if p <? n then m else ret tt.

Definition dispatch (e : Event) : JS unit :=
  match e with
  | WsOpen w draw => open w draw
  | WsMessage w msg => message w msg
  | WsClose w => close w
  | StreamText rid text => on_text rid text
  | StreamEnd rid => on_end rid
  | StreamFail rid => on_fail rid
  | ProcStdout p pcm => listening p (on_stdout pcm)
  | ProcError p => listening p on_error
  | ProcExit p code => listening p (on_exit code)
  | FeedTick => feed
  | Elapse d => elapse d
  | SocketDies w => modify (fun s => with_closed (w :: closed s) s)
  | SocketGone w => modify (fun s => with_gone (w :: gone s) s)
  | PipeBreaks p => modify (fun s => with_broken (p :: broken s) s)
  end.

(** A handler that throws is reported by the runtime; the loop goes on. *)
Definition step (s : State) (e : Event) : State := exec (dispatch e) s.

Definition run (es : list Event) (s : State) : State := fold_left step es s.

(** Module initialisation: [ttsProcess = startTTS();] *)
Definition boot : State :=
  mkState (mkQueue [] [] None) [] None 0 0 [] 0 0 0 [] 0 [] [] [] [] [].

Definition main : JS unit :=
  p <- startTTS ;;
  modify (with_ttsProcess (Some p)).

Definition initial : State := exec main boot.

(* ===================================================================== *)
(** * The earlier server *)
(* ===================================================================== *)

(** The phrase aggregator of the server as it was before
    [unified-server.ts] replaced it; its queue holds items rather than
    strings. *)
Module Legacy.

(** [interface TTSQueueItem] *)
Record TTSQueueItem : Type := mkItem {
  item_id : jsstring;
  text : jsstring;
  timestamp : nat;
  processed : bool
}.

(** [class TTSQueue] of the earlier server. *)
Record TTSQueue : Type := mkLegacyQueue {
  queue : list TTSQueueItem;
  textBuffer : jsstring;
  bufferTimeout : option nat
}.

(** The aggregator with what it needs of the runtime: the clock (also
    [Date.now()]), the pending timers, the handle counter, and the random
    numbers to come, each as [toString(36)] renders it. *)
Record World : Type := mkWorld {
  ttsQueue : TTSQueue;
  clock : nat;
  pending : list Timer;
  fresh : nat;
  random : nat -> jsstring;
  drawn : nat
}.

Definition with_queue (q : TTSQueue) (x : World) : World :=
  mkWorld q (clock x) (pending x) (fresh x) (random x) (drawn x).

Definition with_pending (ts : list Timer) (x : World) : World :=
  mkWorld (ttsQueue x) (clock x) ts (fresh x) (random x) (drawn x).

(** [Math.random().toString(36).substring(7)] *)
Definition new_id (x : World) : jsstring * World :=
  (substring 7 (random x (drawn x)),
   mkWorld (ttsQueue x) (clock x) (pending x) (fresh x) (random x) (S (drawn x))).

(** [if (this.bufferTimeout) { clearTimeout(this.bufferTimeout); }] *)
Definition cancel (x : World) : World :=
  match bufferTimeout (ttsQueue x) with
  | Some h => with_pending (filter (fun t => negb (handle t =? h)) (pending x)) x
  | None => x
  end.

(** [if (this.textBuffer.trim()) { this.queue.push({ id: ..., text:
      this.textBuffer.trim(), timestamp: Date.now(), processed: false });
      this.textBuffer = ''; }], the body of the timer's callback and the end
    of [flushBuffer]. *)
Definition push_buffer (x : World) : World :=
  let q := ttsQueue x in
  if truthy (trim (textBuffer q))
  then let (i, x') := new_id x in
       with_queue
         (mkLegacyQueue (queue q ++ [mkItem i (trim (textBuffer q)) (clock x) false])
                        [] (bufferTimeout q))
         x'
  else x.

(** [add(text: string): string] *)
Definition add (text : jsstring) (x : World) : jsstring * World :=
  let (i, x1) := new_id x in
  let q := ttsQueue x1 in
  let x2 := with_queue (mkLegacyQueue (queue q) (textBuffer q ++ text) (bufferTimeout q)) x1 in
  let x3 := cancel x2 in
  let h := fresh x3 in
  let q3 := ttsQueue x3 in
  (i,
   mkWorld (mkLegacyQueue (queue q3) (textBuffer q3) (Some h))
           (clock x3)
           (pending x3 ++ [mkTimer h (clock x3 + 200) CbFlush])
           (S h) (random x3) (drawn x3)).

(** [flushBuffer(): void] *)
Definition flushBuffer (x : World) : World :=
  let x1 :=
    match bufferTimeout (ttsQueue x) with
    | Some h =>
        let x' := cancel x in
        with_queue (mkLegacyQueue (queue (ttsQueue x')) (textBuffer (ttsQueue x')) None) x'
    | None => x
    end in
  push_buffer x1.

(** [const index = this.queue.findIndex(item => !item.processed)], then
    [this.queue.splice(index, 1)]. *)
Fixpoint take_unprocessed (l : list TTSQueueItem)
  : option (TTSQueueItem * list TTSQueueItem) :=
  match l with
  | [] => None
  | i :: l' =>
      if negb (processed i) then Some (i, l')
      else match take_unprocessed l' with
           | Some (j, l'') => Some (j, i :: l'')
           | None => None
           end
  end.

(** [getNext(): TTSQueueItem | null] *)
Definition getNext (x : World) : option TTSQueueItem * World :=
  let q := ttsQueue x in
  match take_unprocessed (queue q) with
  | Some (item, rest) =>
      (Some item, with_queue (mkLegacyQueue rest (textBuffer q) (bufferTimeout q)) x)
  | None => (None, x)
  end.

(** [isEmpty(): boolean] *)
Definition isEmpty (x : World) : bool :=
  Nat.eqb (List.length (queue (ttsQueue x))) 0.

(** [size(): number] *)
Definition size (x : World) : nat := List.length (queue (ttsQueue x)).

(** [clear(): void] *)
Definition clear (x : World) : World :=
  let x1 :=
    match bufferTimeout (ttsQueue x) with
    | Some h =>
        let x' := cancel x in
        with_queue (mkLegacyQueue (queue (ttsQueue x')) (textBuffer (ttsQueue x')) None) x'
    | None => x
    end in
  with_queue (mkLegacyQueue [] [] (bufferTimeout (ttsQueue x1))) x1.

(** Time passes: the timers that are due run, in order; the callback of
    the only kind of timer there is pushes the buffer. *)
Fixpoint run_due (fuel : nat) (x : World) : World :=
  match fuel with
  | O => x
  | S fuel' =>
      match earliest_due (clock x) (pending x) with
      | None => x
      | Some t =>
          run_due fuel'
            (push_buffer
               (with_pending
                  (filter (fun u => negb (handle u =? handle t)) (pending x)) x))
      end
  end.

Definition elapse (d : nat) (x : World) : World :=
  run_due (List.length (pending x))
    (mkWorld (ttsQueue x) (clock x + d) (pending x) (fresh x) (random x) (drawn x)).

(** A new aggregator in a runtime that will draw the numbers of [r]. *)
Definition start (r : nat -> jsstring) : World :=
  mkWorld (mkLegacyQueue [] [] None) 0 [] 0 r 0.

End Legacy.

(* ===================================================================== *)
(** * Vocabulary of the statements *)
(* ===================================================================== *)

(** [send] on the socket of client [c] returns in state [s]: it does not
    throw. *)
Definition accepts (s : State) (c : WebSocketClient) : bool :=
  negb (existsb (Nat.eqb (ws c)) (closed s)).


(** One [send] of [data] per client of [cs], in registry order. *)
Definition deliveries (data : Payload) (cs : list WebSocketClient)
  : list (socket * Payload) :=
  map (fun c => (ws c, data)) cs.

(** What was sent on socket [w]. *)
Definition received (w : socket) (s : State) : list Payload :=
  map snd (filter (fun m => fst m =? w) (sent s)).

(** The two kinds of timer. *)
Definition is_restart (t : Timer) : bool :=
  match callback t with CbRestart => true | CbFlush => false end.

Definition is_flush (t : Timer) : bool :=
  match callback t with CbFlush => true | CbRestart => false end.

(** Restarts that have been scheduled and not yet run. *)
Definition pending_restarts (s : State) : list Timer :=
  filter is_restart (timers s).

(** The flush timers still pending. *)
Definition pending_flushes (s : State) : list Timer :=
  filter is_flush (timers s).

(** The phrase a flush pushes for a buffer: none when it trims to nothing. *)
Definition phrase_of (b : jsstring) : list jsstring :=
  if truthy (trim b) then [trim b] else [].

(** The lines written for phrases [l] on pipe [pipe]. *)
Definition lines (pipe : nat) (l : list jsstring) : list (nat * jsstring) :=
  map (fun ph => (pipe, ph ++ newline)) (filter truthy l).

(** The [error] event of an exhausted worker. *)
Definition unavailable : Payload := Text (MsgError tts_unavailable).

(** The [error] events of an exhausted worker among sent messages. *)
Definition is_unavailable (m : socket * Payload) : bool :=
  match snd m with
  | Text (MsgError e) => eqb e tts_unavailable
  | _ => false
  end.

(** The binary payloads among sent messages, with their sockets. *)
Definition is_binary (m : socket * Payload) : bool :=
  match snd m with Binary _ => true | Text _ => false end.

(** The binary messages sent so far. *)
Definition audio_sent (s : State) : list (socket * Payload) :=
  filter is_binary (sent s).


(** The failure signals: the handler of [e], run in state [s], calls
    [restartTTS].  These are the [error] listener of a spawned process,
    its [exit] listener given a code that is neither 0 nor [null], and the
    feed loop when the write of the phrase it has dequeued throws. *)
Definition signals (s : State) (e : Event) : bool :=
  match e with
  | ProcError p => p <? next_pid s
  | ProcExit p (Some c) => (p <? next_pid s) && negb (c =? 0)%Z
  | FeedTick =>
      match queue (ttsQueue s), ttsProcess s with
      | ph :: _, Some (mkProc _ (Some pipe)) =>
          truthy ph && existsb (Nat.eqb pipe) (broken s)
      | _, _ => false
      end
  | _ => false
  end.

(** The failure signals among the events [es], run from state [s]. *)
Fixpoint signal_count (es : list Event) (s : State) : nat :=
  match es with
  | [] => 0
  | e :: es' => (if signals s e then 1 else 0) + signal_count es' (step s e)
  end.

(** The state the feed loop leaves when it has taken the head phrase. *)
Definition dequeued (s : State) : State :=
  with_ttsQueue (set_queue (tl (queue (ttsQueue s))) (ttsQueue s)) s.


(** ** The effect of the aggregator, the broadcast and the supervisor *)

(** The timers left when the one behind handle [h] is cleared. *)
Definition without (h : option nat) (ts : list Timer) : list Timer :=
  match h with
  | Some h => filter (fun t => negb (handle t =? h)) ts
  | None => ts
  end.

(** The queue object after [flush]. *)
Definition flushed (q : TTSQueue) : TTSQueue :=
  mkQueue (queue q ++ phrase_of (buffer q))
          (if truthy (trim (buffer q)) then [] else buffer q)
          None.

(** The registry after a broadcast over it: the clients none of whose
    references belongs to a client with a failing socket. *)
Definition survivors (s : State) (cs : list WebSocketClient)
  : list WebSocketClient :=
  filter
    (fun x => negb (existsb (fun c => (addr x =? addr c) && negb (accepts s c)) cs))
    (clients s).

(** The state after a [restartTTS] that schedules a restart. *)
Definition scheduled (s : State) : State :=
  with_next_handle (S (next_handle s))
    (with_timers (timers s ++ [mkTimer (next_handle s) (now s + 1000) CbRestart])
       (with_restarts (restarts s + 1) s)).

(** The state after the callback of a restart timer. *)
Definition respawned (s : State) : State :=
  with_ttsProcess (Some (mkProc (next_pid s) (Some (next_pid s))))
    (with_next_pid (S (next_pid s)) s).

(** ** Invariants of the reachable states *)

(** The timer table: handles are distinct and were all allocated; the
    pending flush timers are exactly the one [TTSQueue.timeout] holds. *)
Definition timers_ok (ts : list Timer) (nh : nat) (t_o : option nat) : Prop :=
  NoDup (map handle ts) /\
  (forall t, In t ts -> handle t < nh) /\
  (forall t, In t ts -> (is_flush t = true <-> t_o = Some (handle t))) /\
  (forall h, t_o = Some h -> h < nh).

(** The timer table of a state is in order. *)
Definition wf (s : State) : Prop :=
  timers_ok (timers s) (next_handle s) (timeout (ttsQueue s)).

(** The restart budget: the processes spawned and the restarts still
    pending add up to the first start plus one restart per failure signal
    counted, five at most. *)
Definition budget (s : State) : Prop :=
  (0 <= restarts s)%Z /\
  next_pid s + List.length (pending_restarts s)
    = 1 + Z.to_nat (Z.min (restarts s) 5).

(** The registry: references are distinct and were all allocated. *)
Definition registry_ok (s : State) : Prop :=
  NoDup (map addr (clients s)) /\
  (forall c, In c (clients s) -> addr c < next_addr s).

(** ** States that differ in the whitespace held back *)

(** The state with [b] for buffer. *)
Definition with_buffer (b : jsstring) (s : State) : State :=
  with_ttsQueue (set_buffer b (ttsQueue s)) s.

(** Everything is the same but whitespace at the head of the buffer. *)
Definition alike (s1 s2 : State) : Prop :=
  s2 = with_buffer (buffer (ttsQueue s2)) s1 /\
  trimStart (buffer (ttsQueue s1)) = trimStart (buffer (ttsQueue s2)).

(** The state with other contents in the aggregator: queued phrases [q]
    and buffered text [b]. *)
Definition holding (q : list jsstring) (b : jsstring) (s : State) : State :=
  with_ttsQueue (mkQueue q b (timeout (ttsQueue s))) s.

(** ** A burst of increments *)

(** [add(t1)], then for each [(d, t)] of [rest]: [d] ms pass, [add(t)]. *)
Fixpoint add_within (rest : list (nat * jsstring)) : JS unit :=
  match rest with
  | [] => ret tt
  | (d, t) :: rest' => elapse d ;; add t ;; add_within rest'
  end.

(** A burst: a first increment and the ones that follow it. *)
Definition burst (t1 : jsstring) (rest : list (nat * jsstring)) : JS unit :=
  add t1 ;; add_within rest.

(** [t1 + t2 + ...] *)
Definition burst_text (t1 : jsstring) (rest : list (nat * jsstring)) : jsstring :=
  t1 ++ List.concat (map snd rest).

(** Each increment comes within the quiet period of the previous one. *)
Definition within_quiet_period (rest : list (nat * jsstring)) : bool :=
  forallb (fun p => fst p <? 200) rest.

(* ===================================================================== *)
(** * Scenarios *)
(* ===================================================================== *)

(** A request for a chat completion. *)
Definition chat (prompt : string) : Incoming :=
  JsonValue (JString (lit "chat")) (JString (lit prompt)).

(** A client connects, asks, and the reply ["Hello"] is streamed and
    flushed into the queue. *)
Definition hello_queued : list Event :=
  [ WsOpen 1 (lit "0.4fzyo82mvyr");
    WsMessage 1 (chat "Hi");
    StreamText 0 (lit "Hello");
    StreamEnd 0 ].

(** Then the worker is ended by a signal: its exit code is [null]. *)
Definition worker_killed : list Event :=
  hello_queued ++ [ ProcExit 0 None; Elapse 1000 ].

(** The same with an exit code of 1. *)
Definition worker_failed : list Event :=
  hello_queued ++ [ ProcExit 0 (Some 1%Z); Elapse 1000 ].

(** A client is connected; the first worker and the five spawned after
    it exit with code 1, one after the other. *)
Definition six_failures : list Event :=
  [ WsOpen 1 (lit "0.4fzyo82mvyr");
    ProcExit 0 (Some 1%Z); Elapse 1000;
    ProcExit 1 (Some 1%Z); Elapse 1000;
    ProcExit 2 (Some 1%Z); Elapse 1000;
    ProcExit 3 (Some 1%Z); Elapse 1000;
    ProcExit 4 (Some 1%Z); Elapse 1000;
    ProcExit 5 (Some 1%Z) ].

(** Then the pipe of the last worker breaks while a phrase is queued for
    it. *)
Definition write_will_fail : list Event :=
  [ PipeBreaks 5;
    WsMessage 1 (chat "Hi"); StreamText 0 (lit "Hello"); StreamEnd 0 ].

(** And the feed loop runs. *)
Definition failed_write_after : list Event := write_will_fail ++ [FeedTick].



(** A client is connected; the first worker and the four spawned after
    it exit with code 1; the last worker reports an error and then exits
    with code 1 as well. *)
Definition last_worker_reports_twice : list Event :=
  [ WsOpen 1 (lit "0.4fzyo82mvyr");
    ProcExit 0 (Some 1%Z); Elapse 1000;
    ProcExit 1 (Some 1%Z); Elapse 1000;
    ProcExit 2 (Some 1%Z); Elapse 1000;
    ProcExit 3 (Some 1%Z); Elapse 1000;
    ProcExit 4 (Some 1%Z); Elapse 1000;
    ProcError 5; ProcExit 5 (Some 1%Z) ].

(** Two clients are connected; the socket of the first one fails. *)
Definition one_of_two_fails : list Event :=
  [ WsOpen 1 (lit "0.4fzyo82mvyr"); WsOpen 2 (lit "0.8jx1k3w9q2b"); SocketDies 1 ].



(** Two clients are connected; the first one asks and is answered. *)
Definition two_clients_one_asks : list Event :=
  [ WsOpen 1 (lit "0.4fzyo82mvyr"); WsOpen 2 (lit "0.8jx1k3w9q2b");
    WsMessage 1 (chat "Hi");
    StreamText 0 (lit "Hello"); StreamEnd 0 ].

(** A client is connected; the worker writes a chunk of three bytes. *)
Definition short_chunk : list Event :=
  [ WsOpen 1 (lit "0.4fzyo82mvyr"); ProcStdout 0 [x01; x02; x03] ].

(** Two clients connect; the random numbers drawn are 0.5 and 0.25, which
    [toString(36)] renders as ["0.i"] and ["0.9"]. *)
Definition short_draws : list Event :=
  [ WsOpen 1 (lit "0.i"); WsOpen 2 (lit "0.9") ].

(** A client connects and leaves; the next one draws the same number. *)
Definition same_draw_again : list Event :=
  [ WsOpen 1 (lit "0.4fzyo82mvyr"); WsClose 1; WsOpen 2 (lit "0.4fzyo82mvyr") ].

(** A request streams only whitespace. *)
Definition blank_reply : list Event :=
  [ WsOpen 1 (lit "0.4fzyo82mvyr");
    WsMessage 1 (chat "Hi");
    StreamText 0 (lit " "); Elapse 50; StreamText 0 (lit "  ") ].

(** The phrase ["Hello"] is queued; the pipe of the worker breaks; the
    feed loop runs, a second passes, the feed loop runs three times. *)
Definition crash_on_write : list Event :=
  hello_queued ++
  [ PipeBreaks 0; FeedTick; Elapse 1000; FeedTick; FeedTick; FeedTick ].

(** The phrase ["Hello"] is queued; the worker exits with code 1; the feed
    loop runs before the restart, a second passes, the feed loop runs. *)
Definition crash_then_feed : list Event :=
  hello_queued ++
  [ ProcExit 0 (Some 1%Z); FeedTick; Elapse 1000; FeedTick; FeedTick ].

(* ===================================================================== *)
(** * Further vocabulary *)
(* ===================================================================== *)

(** A phrase as [flush] pushes them: not empty, no whitespace at either end. *)
Definition clean (ph : jsstring) : Prop := ph <> [] /\ trim ph = ph.

(** The worker handle is a process that was spawned, with its pipe. *)
Definition handle_ok (s : State) : Prop :=
  exists p, ttsProcess s = Some (mkProc p (Some p)) /\ p < next_pid s.

(** The handlers that wait have distinct identifiers, all allocated. *)
Definition requests_ok (s : State) : Prop :=
  NoDup (map fst (requests s)) /\
  (forall r, In r (requests s) -> fst r < next_request s).

(** A line written to a worker: a clean phrase and a newline, on the pipe
    of a process that was spawned. *)
Definition line_ok (s : State) (l : nat * jsstring) : Prop :=
  fst l < next_pid s /\ exists ph, clean ph /\ snd l = ph ++ newline.

(** The phrases and the lines of a state are in order. *)
Definition served (s : State) : Prop :=
  Forall clean (queue (ttsQueue s)) /\
  handle_ok s /\
  Forall (line_ok s) (written s).

(** [data.type === 'chat' && data.prompt], when [data] can be read at all. *)
Definition valid (msg : Incoming) : bool :=
  match msg with
  | JsonValue ty pr => is_chat ty && val_truthy pr
  | BadJson | JsonNull => false
  end.

(** What a message that is not valid is answered with. *)
Definition rejection (msg : Incoming) : jsstring :=
  match msg with
  | JsonValue _ _ => invalid_format
  | BadJson | JsonNull => failed_to_process
  end.

(** The events of the upstream generation of request [rid]. *)
Definition of_request (rid : nat) (e : Event) : bool :=
  match e with
  | StreamText r _ | StreamEnd r | StreamFail r => r =? rid
  | _ => false
  end.

(** Socket [w] throws on [send] in state [s]. *)
Definition refuses (s : State) (w : socket) : bool :=
  existsb (Nat.eqb w) (closed s).

(** The handler waiting for request [rid], if any. *)
Definition waiting (s : State) (rid : nat) : option (nat * socket) :=
  find (fun r => fst r =? rid) (requests s).

(** The events of a generation that yields [ts] and ends. *)
Definition reply (rid : nat) (ts : list jsstring) : list Event :=
  map (StreamText rid) ts ++ [StreamEnd rid].

(** The [text_chunk] messages for [ts] on socket [w]. *)
Definition chunks (w : socket) (ts : list jsstring) : list (socket * Payload) :=
  map (fun t => (w, Text (MsgTextChunk t))) ts.

(** ** The two aggregators side by side *)

(** What a user of the aggregator can do, and what it can see. *)
Inductive Op : Type :=
| OpAdd (text : jsstring)
| OpFlush
| OpClear
| OpNext
| OpSize
| OpIsEmpty
| OpElapse (d : nat).

Inductive Obs : Type :=
| Dequeued (phrase : option jsstring)
| Counted (n : nat)
| Empty (b : bool).

(** The aggregator of [unified-server.ts]. *)
Definition perform (o : Op) (s : State) : list Obs * State :=
  match o with
  | OpAdd t => ([], exec (add t) s)
  | OpFlush => ([], exec flush s)
  | OpClear => ([], exec clear s)
  | OpNext =>
      match next s with
      | (Normal r, s') => ([Dequeued r], s')
      | (Thrown, s') => ([], s')
      end
  | OpSize =>
      match size s with
      | (Normal n, s') => ([Counted n], s')
      | (Thrown, s') => ([], s')
      end
  | OpIsEmpty =>
      match isEmpty s with
      | (Normal b, s') => ([Empty b], s')
      | (Thrown, s') => ([], s')
      end
  | OpElapse d => ([], exec (elapse d) s)
  end.

Fixpoint observe (ops : list Op) (s : State) : list Obs :=
  match ops with
  | [] => []
  | o :: ops' => let (obs, s') := perform o s in obs ++ observe ops' s'
  end.

(** The aggregator of the earlier server; of a dequeued item the text is
    what the feed loop uses. *)
Definition legacy_perform (o : Op) (x : Legacy.World) : list Obs * Legacy.World :=
  match o with
  | OpAdd t => ([], snd (Legacy.add t x))
  | OpFlush => ([], Legacy.flushBuffer x)
  | OpClear => ([], Legacy.clear x)
  | OpNext =>
      let (r, x') := Legacy.getNext x in
      ([Dequeued (option_map Legacy.text r)], x')
  | OpSize => ([Counted (Legacy.size x)], x)
  | OpIsEmpty => ([Empty (Legacy.isEmpty x)], x)
  | OpElapse d => ([], Legacy.elapse d x)
  end.

Fixpoint legacy_observe (ops : list Op) (x : Legacy.World) : list Obs :=
  match ops with
  | [] => []
  | o :: ops' => let (obs, x') := legacy_perform o x in obs ++ legacy_observe ops' x'
  end.

(** An item as [push_buffer] makes them. *)
Definition item_ok (i : Legacy.TTSQueueItem) : Prop :=
  Legacy.processed i = false /\ truthy (Legacy.text i) = true.

(** The earlier aggregator [x] and the aggregator of state [s] stand for
    one another: same phrases queued, same text buffered but for
    whitespace at its head, same clock and timers, and cancelling the
    timer either of them remembers comes to the same. *)
Definition matches (x : Legacy.World) (s : State) : Prop :=
  map Legacy.text (Legacy.queue (Legacy.ttsQueue x)) = queue (ttsQueue s) /\
  Forall item_ok (Legacy.queue (Legacy.ttsQueue x)) /\
  trimStart (Legacy.textBuffer (Legacy.ttsQueue x)) = trimStart (buffer (ttsQueue s)) /\
  Legacy.clock x = now s /\
  Legacy.pending x = timers s /\
  Legacy.fresh x = next_handle s /\
  wf s /\
  pending_restarts s = [] /\
  without (Legacy.bufferTimeout (Legacy.ttsQueue x)) (timers s)
    = without (timeout (ttsQueue s)) (timers s).

(* ===================================================================== *)
(** * The client *)
(* ===================================================================== *)

(** The state of the hook of [hooks/useWebSocketChat.ts] and the handlers
    that update it. *)
Module Hook.

(** The four [useState] cells of [useWebSocketChat]. *)
Record ChatState : Type := mkChat {
  isConnected : bool;
  currentResponse : jsstring;
  isStreaming : bool;
  error : option jsstring
}.

(** What [onmessage] is given: something the server sent (a text is the
    JSON of one of the server's messages, which [JSON.parse] gives back),
    or a text that is not JSON or whose [type] is none of the four. *)
Inductive Frame : Type :=
| FromServer (data : Payload)
| Other.

(** [handleMessage]: binary data goes to the audio player and leaves the
    four cells alone; a JSON message is dispatched on its [type]. *)
Definition handleMessage (f : Frame) (st : ChatState) : ChatState :=
  match f with
  | FromServer (Binary _) => st
  | FromServer (Text (MsgConnected _)) =>
      mkChat true (currentResponse st) (isStreaming st) None
  | FromServer (Text (MsgTextChunk text)) =>
      mkChat (isConnected st) (currentResponse st ++ text) (isStreaming st) (error st)
  | FromServer (Text MsgTextComplete) =>
      mkChat (isConnected st) (currentResponse st) false (error st)
  | FromServer (Text (MsgError message)) =>
      mkChat (isConnected st) (currentResponse st) false (Some message)
  | Other => st
  end.

Definition not_connected : jsstring := lit "Not connected to server".

(** [sendMessage(prompt)], [ready] telling whether the socket exists and
    is open, and stays so across [await initAudioContext()]: the new
    state, and the message sent if any, as the server's [JSON.parse]
    reads it. *)
Definition sendMessage (ready : bool) (prompt : jsstring) (st : ChatState)
  : ChatState * option Incoming :=
  if ready
  then (mkChat (isConnected st) [] true None,
        Some (JsonValue (JString (lit "chat")) (JString prompt)))
  else (mkChat (isConnected st) (currentResponse st) (isStreaming st)
          (Some not_connected),
        None).

End Hook.

(** The reconnection of [class WebSocketClient] of [lib/websocket.ts]. *)
Module Lib.


(** [readyState] of a browser socket. *)
Inductive ReadyState : Type := CONNECTING | OPEN | CLOSING | CLOSED.

(** The fields the reconnection uses, and the browser around them:
    [socks] holds the state of every socket [new WebSocket] has made,
    [ws] is the index of the current one, [maxReconnectAttempts] is a
    number or [Infinity] ([None]), [pending] the timers set and neither
    fired nor cleared. *)
Record WebSocketClient : Type := mkWsClient {
  ws : option nat;
  maxReconnectAttempts : option nat;
  reconnectAttempts : nat;
  reconnectTimeout : option nat;
  socks : list ReadyState;
  pending : list nat;
  next_timer : nat
}.

(** [new WebSocketClient(config)]; a browser's timer handles start at 1. *)
Definition create (max : option nat) : WebSocketClient :=
  mkWsClient None max 0 None [] [] 1.

Definition with_socks (l : list ReadyState) (c : WebSocketClient) : WebSocketClient :=
  mkWsClient (ws c) (maxReconnectAttempts c) (reconnectAttempts c)
    (reconnectTimeout c) l (pending c) (next_timer c).

Definition with_pending (l : list nat) (c : WebSocketClient) : WebSocketClient :=
  mkWsClient (ws c) (maxReconnectAttempts c) (reconnectAttempts c)
    (reconnectTimeout c) (socks c) l (next_timer c).

(** Socket [i] goes to state [r]. *)
Fixpoint set_state (i : nat) (r : ReadyState) (l : list ReadyState) : list ReadyState :=
  match l, i with
  | [], _ => []
  | _ :: l', 0 => r :: l'
  | x :: l', S i' => x :: set_state i' r l'
  end.

(** [this.ws?.readyState === WebSocket.OPEN] *)
Definition isConnected (c : WebSocketClient) : bool :=
  match ws c with
  | Some i => match nth_error (socks c) i with Some OPEN => true | _ => false end
  | None => false
  end.

(** [connect()]: nothing when the current socket is open, a new socket
    otherwise; the handlers it installs are the cases of [step] below. *)
Definition connect (c : WebSocketClient) : WebSocketClient :=
  if isConnected c then c
  else mkWsClient (Some (List.length (socks c))) (maxReconnectAttempts c)
         (reconnectAttempts c) (reconnectTimeout c) (socks c ++ [CONNECTING])
         (pending c) (next_timer c).

(** [this.ws.onopen]: [this.reconnectAttempts = 0]. *)
Definition onopen (c : WebSocketClient) : WebSocketClient :=
  mkWsClient (ws c) (maxReconnectAttempts c) 0 (reconnectTimeout c) (socks c)
    (pending c) (next_timer c).

(** [this.reconnectAttempts >= this.config.maxReconnectAttempts] *)
Definition exhausted (c : WebSocketClient) : bool :=
  match maxReconnectAttempts c with
  | Some m => m <=? reconnectAttempts c
  | None => false
  end.

(** [scheduleReconnect()] *)
Definition scheduleReconnect (c : WebSocketClient) : WebSocketClient :=
  if exhausted c then c
  else mkWsClient (ws c) (maxReconnectAttempts c) (S (reconnectAttempts c))
         (Some (next_timer c)) (socks c) (pending c ++ [next_timer c])
         (S (next_timer c)).

(** [this.ws.onclose] *)
Definition onclose (c : WebSocketClient) : WebSocketClient := scheduleReconnect c.

(** [clearTimeout(h)] *)
Definition clearTimeout (h : nat) (l : list nat) : list nat :=
  filter (fun x => negb (x =? h)) l.

(** [disconnect()]; [close()] leaves a closed socket closed and takes
    another to the closing state. *)
Definition disconnect (c : WebSocketClient) : WebSocketClient :=
  let c1 :=
    match reconnectTimeout c with
    | Some h =>
        mkWsClient (ws c) (maxReconnectAttempts c) (reconnectAttempts c) None
          (socks c) (clearTimeout h (pending c)) (next_timer c)
    | None => c
    end in
  match ws c1 with
  | Some i =>
      mkWsClient None (maxReconnectAttempts c1) (reconnectAttempts c1)
        (reconnectTimeout c1)
        (match nth_error (socks c1) i with
         | Some CLOSED | None => socks c1
         | Some _ => set_state i CLOSING (socks c1)
         end)
        (pending c1) (next_timer c1)
  | None => c1
  end.

(** What happens to a client: its owner calls [connect] or [disconnect],
    the browser opens or closes one of its sockets, a timer fires. *)
Inductive Event : Type :=
| Connect
| Disconnect
| Opened (i : nat)
| Closed (i : nat)
| Fired (h : nat).

(** A socket opens from the connecting state only, and closes once; a
    timer fires while it is pending, and its callback calls [connect]. *)
Definition step (c : WebSocketClient) (e : Event) : WebSocketClient :=
  match e with
  | Connect => connect c
  | Disconnect => disconnect c
  | Opened i =>
      match nth_error (socks c) i with
      | Some CONNECTING => onopen (with_socks (set_state i OPEN (socks c)) c)
      | _ => c
      end
  | Closed i =>
      match nth_error (socks c) i with
      | Some CLOSED | None => c
      | Some _ => onclose (with_socks (set_state i CLOSED (socks c)) c)
      end
  | Fired h =>
      if existsb (Nat.eqb h) (pending c)
      then connect (with_pending (clearTimeout h (pending c)) c)
      else c
  end.

Definition run (es : list Event) (c : WebSocketClient) : WebSocketClient :=
  fold_left step es c.

(** The calls of [connect] by the owner, and the open events, of a trace. *)
Definition connects (es : list Event) : nat :=
  List.length (filter (fun e => match e with Connect => true | _ => false end) es).

Definition opens (es : list Event) : nat :=
  List.length (filter (fun e => match e with Opened _ => true | _ => false end) es).

End Lib.

(** What the server sent on socket [w] after its first [n] sends. *)
Definition delivered (w : socket) (n : nat) (s : State) : list Payload :=
  map snd (filter (fun m => fst m =? w) (skipn n (sent s))).

(** The hook of a client handling what it is sent, in order. *)
Definition receive (ps : list Payload) (st : Hook.ChatState) : Hook.ChatState :=
  fold_left (fun st p => Hook.handleMessage (Hook.FromServer p) st) ps st.

(** What a trace keeps true of a reconnecting client made with the bound
    [m], after [k] calls of [connect] by its owner and [o] open events:
    the attempts are within the bound, and every socket made and every
    pending timer is paid for by one of the [k] calls or by a timer set,
    of which there are at most [m] for each open event, and the attempts
    since. *)
Definition accounted (m k o : nat) (c : Lib.WebSocketClient) : Prop :=
  Lib.maxReconnectAttempts c = Some m /\
  Lib.reconnectAttempts c <= m /\
  List.length (Lib.socks c) + List.length (Lib.pending c)
    <= k + m * o + Lib.reconnectAttempts c.

(* ===================================================================== *)
(** * Trimming *)
(* ===================================================================== *)

Lemma trimStart_blank w : blank w = true -> trimStart w = [].
Proof.
  induction w as [|c w IH]; simpl; [reflexivity|].
  intros H. apply andb_prop in H as [Hc Hw]. rewrite Hc. auto.
Qed.

Lemma trimStart_app_blank w b : blank w = true -> trimStart (w ++ b) = trimStart b.
Proof.
  induction w as [|c w IH]; simpl; [reflexivity|].
  intros H. apply andb_prop in H as [Hc Hw]. rewrite Hc. auto.
Qed.

Lemma trimStart_nil_blank s : trimStart s = [] -> blank s = true.
Proof.
  induction s as [|c s IH]; simpl; [reflexivity|].
  destruct (isWhiteSpace c); [auto | discriminate].
Qed.

Lemma trimStart_app s t :
  trimStart (s ++ t) =
  match trimStart s with [] => trimStart t | _ :: _ => trimStart s ++ t end.
Proof.
  induction s as [|c s IH]; simpl; [reflexivity|].
  destruct (isWhiteSpace c); [exact IH | reflexivity].
Qed.

Lemma blank_rev s : blank (rev s) = blank s.
Proof.
  unfold blank. induction s as [|c s IH]; simpl; [reflexivity|].
  rewrite forallb_app, IH. simpl. rewrite andb_true_r. apply andb_comm.
Qed.

Lemma trimStart_head s : 
  match trimStart s with [] => True | c :: _ => isWhiteSpace c = false end.
Proof.
  induction s as [|c s IH]; simpl; [exact I|].
  destruct (isWhiteSpace c) eqn:E; [exact IH | exact E].
Qed.

Lemma trimEnd_nil s : trimEnd s = [] -> blank s = true.
Proof.
  unfold trimEnd. intros H.
  assert (trimStart (rev s) = []) as H1.
  { destruct (trimStart (rev s)) as [|c l]; [reflexivity|].
    simpl in H. apply app_eq_nil in H as [_ H]. discriminate. }
  apply trimStart_nil_blank in H1. now rewrite blank_rev in H1.
Qed.

Lemma trim_nil_blank s : trim s = [] <-> blank s = true.
Proof.
  unfold trim. split.
  - intros H. apply trimEnd_nil in H.
    pose proof (trimStart_head s) as Hh.
    destruct (trimStart s) as [|c r] eqn:E.
    + now apply trimStart_nil_blank.
    + simpl in H. rewrite Hh in H. discriminate.
  - intros H. rewrite trimStart_blank by assumption. reflexivity.
Qed.

Lemma truthy_trim s : truthy (trim s) = negb (blank s).
Proof.
  destruct (blank s) eqn:E.
  - apply trim_nil_blank in E. now rewrite E.
  - destruct (trim s) eqn:T; [|reflexivity].
    assert (blank s = true) by (now apply trim_nil_blank). congruence.
Qed.

Lemma trim_app_blank w b : blank w = true -> trim (w ++ b) = trim b.
Proof. intros H. unfold trim. now rewrite trimStart_app_blank. Qed.

Lemma trim_congr a b : trimStart a = trimStart b -> trim a = trim b.
Proof. unfold trim. now intros ->. Qed.

(* ===================================================================== *)
(** * What the handlers do to the state *)
(* ===================================================================== *)

Lemma flush_eq s :
  flush s =
  (Normal tt,
   with_timers (without (timeout (ttsQueue s)) (timers s))
     (with_ttsQueue (flushed (ttsQueue s)) s)).
Proof.
  destruct s as [[q b t] ? ? ? ? ? ? ? ? ? ? ? ? ? ? ?].
  unfold flush, flushed, phrase_of, clear_pending, update_queue, clearTimeout,
    bind, gets, modify, ret; simpl.
  destruct (truthy (trim b)); destruct t; simpl; rewrite ?app_nil_r; reflexivity.
Qed.

Lemma add_eq text s :
  add text s =
  (Normal tt,
   with_next_handle (S (next_handle s))
     (with_timers (without (timeout (ttsQueue s)) (timers s)
                     ++ [mkTimer (next_handle s) (now s + 200) CbFlush])
        (with_ttsQueue
           (mkQueue (queue (ttsQueue s)) (buffer (ttsQueue s) ++ text)
                    (Some (next_handle s))) s))).
Proof.
  destruct s as [[q b t] ? ? ? ? ? ? ? ? ? ? ? ? ? ? ?].
  unfold add, clear_pending, update_queue, clearTimeout, setTimeout,
    bind, gets, modify, ret; simpl.
  destruct t; reflexivity.
Qed.

Lemma clear_eq s :
  clear s =
  (Normal tt,
   with_timers (without (timeout (ttsQueue s)) (timers s))
     (with_ttsQueue (set_queue [] (flushed (ttsQueue s))) s)).
Proof.
  unfold clear, bind. rewrite flush_eq.
  destruct s as [[q b t] ? ? ? ? ? ? ? ? ? ? ? ? ? ? ?]. reflexivity.
Qed.

Lemma filter_filter {A} (f g : A -> bool) l :
  filter f (filter g l) = filter (fun x => g x && f x) l.
Proof.
  induction l as [|a l IH]; simpl; [reflexivity|].
  destruct (g a); simpl; [destruct (f a)|]; now rewrite IH.
Qed.

Lemma filter_all {A} (f : A -> bool) l :
  (forall x, f x = true) -> filter f l = l.
Proof.
  intros H. induction l as [|a l IH]; simpl; [reflexivity|].
  now rewrite H, IH.
Qed.

Lemma forEach_send data cs : forall s,
  forEach cs (fun client =>
    try_catch (ws_send (ws client) data ;; ret tt) (Set_delete client)) s =
  (Normal tt,
   with_sent (sent s ++ deliveries data (filter (accepts s) cs))
     (with_clients (survivors s cs) s)).
Proof.
  induction cs as [|c cs IH]; intros s.
  - destruct s. unfold survivors, deliveries, with_sent, with_clients, ret. simpl.
    rewrite app_nil_r, filter_all by reflexivity. reflexivity.
  - cbn [forEach]. unfold bind at 1.
    unfold try_catch at 1, bind at 1, ws_send at 1, accepts at 1.
    destruct (existsb (Nat.eqb (ws c)) (closed s)) eqn:D; cbn [ret].
    + unfold Set_delete, modify. rewrite IH.
      destruct s. unfold survivors, accepts, deliveries, with_sent, with_clients; simpl.
      simpl in D. rewrite D. simpl.
      f_equal. f_equal. rewrite filter_filter. apply filter_ext.
      intros x. rewrite andb_true_r. rewrite negb_orb. reflexivity.
    + rewrite IH.
      destruct s. unfold survivors, accepts, deliveries, with_sent, with_clients; simpl.
      simpl in D. rewrite D. simpl. rewrite <- app_assoc. simpl.
      f_equal. f_equal. apply filter_ext.
      intros x. now rewrite andb_false_r.
Qed.

Lemma broadcast_eq data s :
  broadcast data None s =
  (Normal tt,
   with_sent (sent s ++ deliveries data (filter (accepts s) (clients s)))
     (with_clients (survivors s (clients s)) s)).
Proof.
  unfold broadcast, bind, gets. apply forEach_send.
Qed.
Lemma restartTTS_eq s :
  restartTTS s =
  if (restarts s <? 5)%Z then (Normal tt, scheduled s)
  else broadcast unavailable None (with_restarts (restarts s + 1) s).
Proof.
  unfold restartTTS, bind, gets, modify. cbn [restarts with_restarts].
  destruct (restarts s <? 5)%Z; [|reflexivity].
  destruct s; reflexivity.
Qed.

Lemma fire_eq cb s :
  fire cb s =
  (Normal tt,
   match cb with
   | CbFlush => exec flush s
   | CbRestart => respawned s
   end).
Proof.
  destruct cb; simpl.
  - unfold exec. now rewrite flush_eq.
  - destruct s; reflexivity.
Qed.

(* ===================================================================== *)
(** * Timers and runs *)
(* ===================================================================== *)

Lemma earliest_due_In t ts x :
  earliest_due t ts = Some x -> In x ts /\ due x <= t.
Proof.
  revert x. induction ts as [|a ts IH]; simpl; intros x H; [discriminate|].
  destruct (due a <=? t) eqn:D.
  - apply Nat.leb_le in D.
    destruct (earliest_due t ts) as [y|].
    + destruct (IH y eq_refl) as [Hy Hd].
      destruct (earlier a y); injection H as <-; auto.
    + injection H as <-; auto.
  - destruct (IH x H); auto.
Qed.

Lemma earliest_due_None t ts :
  earliest_due t ts = None -> forall x, In x ts -> t < due x.
Proof.
  induction ts as [|a ts IH]; simpl; intros H x Hx; [contradiction|].
  destruct (due a <=? t) eqn:D.
  - destruct (earliest_due t ts); discriminate.
  - apply Nat.leb_gt in D. destruct Hx as [<-|Hx]; auto.
Qed.

(** One timer callback: the timer leaves the table, its callback runs. *)
Lemma run_due_S n s :
  exec (run_due (S n)) s =
  match earliest_due (now s) (timers s) with
  | None => s
  | Some x =>
      exec (run_due n)
        (exec (fire (callback x)) (exec (clearTimeout (handle x)) s))
  end.
Proof.
  unfold exec at 1. cbn [run_due]. unfold bind at 1, gets at 1.
  unfold bind at 1, gets at 1.
  destruct (earliest_due (now s) (timers s)) as [x|]; [|reflexivity].
  unfold bind at 1. unfold clearTimeout at 1, modify at 1.
  unfold bind at 1. unfold exec. rewrite !fire_eq. reflexivity.
Qed.

Lemma run_due_returns n : forall s, fst (run_due n s) = Normal tt.
Proof.
  induction n as [|n IH]; intros s; [reflexivity|].
  cbn [run_due]. unfold bind at 1, gets at 1. unfold bind at 1, gets at 1.
  destruct (earliest_due (now s) (timers s)) as [x|]; [|reflexivity].
  unfold bind at 1. unfold clearTimeout at 1, modify at 1.
  unfold bind at 1. rewrite fire_eq. apply IH.
Qed.

(** A property kept by every callback that is due is kept by [run_due]. *)
Lemma run_due_invariant (P : State -> Prop) :
  (forall s x, P s -> In x (timers s) -> due x <= now s ->
     P (exec (fire (callback x)) (exec (clearTimeout (handle x)) s))) ->
  forall n s, P s -> P (exec (run_due n) s).
Proof.
  intros Hstep. induction n as [|n IH]; intros s Hs; [exact Hs|].
  rewrite run_due_S.
  destruct (earliest_due (now s) (timers s)) as [x|] eqn:E; [|exact Hs].
  apply earliest_due_In in E as [Hin Hd].
  apply IH. now apply Hstep.
Qed.

Lemma elapse_eq d s :
  exec (elapse d) s =
  exec (run_due (List.length (timers s))) (with_now (now s + d) s).
Proof. destruct s; reflexivity. Qed.

Lemma run_app es1 es2 s : run (es1 ++ es2) s = run es2 (run es1 s).
Proof. unfold run. apply fold_left_app. Qed.

(* ===================================================================== *)
(** * Case analysis of the handlers *)
(* ===================================================================== *)

(** Unfolds the handler of an event down to the primitives. *)
Ltac open_handler :=
  unfold step, exec, dispatch, listening, open, close, message, on_text,
    on_end, on_fail, on_stdout, on_error, on_exit, feed, resume, finish,
    suspend, next, isEmpty, Set_add, Set_delete, ws_send, stdin_write,
    update_queue, clearTimeout, try_catch, bind, gets, modify, ret, throw.

(** Reduces the projections of updated states. *)
Ltac proj :=
  cbn [ttsQueue clients ttsProcess restarts now timers next_handle next_pid
       next_addr requests next_request closed gone broken sent written
       with_ttsQueue with_clients with_ttsProcess with_restarts with_now
       with_timers with_next_handle with_next_pid with_next_addr
       with_requests with_next_request with_closed with_gone with_broken with_sent
       with_written queue buffer timeout set_queue set_buffer set_timeout
       flushed scheduled respawned fst snd] in *.

(** Splits on an innermost test of the goal. *)
Ltac split_match :=
  match goal with
  | |- context [match ?x with _ => _ end] =>
      lazymatch x with
      | context [match _ with _ => _ end] => fail
      | _ => destruct x eqn:?
      end
  end.

(** Replaces the calls of the aggregator, of [broadcast] and of
    [restartTTS] by their effect. *)
Ltac closed_forms :=
  progress (rewrite ?flush_eq, ?add_eq, ?clear_eq, ?broadcast_eq, ?restartTTS_eq).

(** All of it: a handler on an arbitrary state, one goal per path. *)
Ltac handler_cases :=
  open_handler; proj; repeat (first [closed_forms | split_match]; proj).

(* ===================================================================== *)
(** * Pending restarts *)
(* ===================================================================== *)

Lemma filter_nil_sub {A} (f g : A -> bool) l :
  filter f l = [] -> filter f (filter g l) = [].
Proof.
  induction l as [|a l IH]; simpl; [reflexivity|].
  destruct (f a) eqn:F; [discriminate|].
  intros H. destruct (g a); simpl; [rewrite F|]; auto.
Qed.

Lemma pending_without h ts :
  filter is_restart ts = [] -> filter is_restart (without h ts) = [].
Proof. destruct h; simpl; [apply filter_nil_sub | auto]. Qed.

Lemma unavailable_deliveries data cs :
  is_unavailable (0, data) = false ->
  filter is_unavailable (deliveries data cs) = [].
Proof.
  intros H. induction cs as [|c cs IH]; simpl; [reflexivity|].
  unfold is_unavailable in *. simpl in *. now rewrite H.
Qed.

Lemma only_flush_pending s x :
  pending_restarts s = [] -> In x (timers s) -> callback x = CbFlush.
Proof.
  intros H Hin. destruct (callback x) eqn:E; [reflexivity|].
  assert (In x (pending_restarts s)) as F.
  { apply filter_In. split; [exact Hin|]. unfold is_restart. now rewrite E. }
  rewrite H in F. contradiction.
Qed.

(* ===================================================================== *)
(** * A worker ended by a signal *)
(* ===================================================================== *)

(** C4 (where the code departs from it).  The worker is ended by a signal
    while the phrase ["Hello"] is queued.  A second later no restart has
    been scheduled or run: the worker handle is still the ended process,
    only one process was ever spawned.  An exit with code 1 from the same
    state is followed by a fresh worker. *)
Theorem killed_worker_is_not_restarted :
  let killed := run worker_killed initial in
  let failed := run worker_failed initial in
  queue (ttsQueue killed) = [lit "Hello"] /\
  timers killed = [] /\
  restarts killed = 0%Z /\
  next_pid killed = 1 /\
  ttsProcess killed = Some (mkProc 0 (Some 0)) /\
  restarts failed = 1%Z /\
  next_pid failed = 2 /\
  ttsProcess failed = Some (mkProc 1 (Some 1)).
Proof. vm_compute. repeat split; reflexivity. Qed.

(* ===================================================================== *)
(** * Invariants *)
(* ===================================================================== *)

Lemma NoDup_map_filter {A B} (g : A -> B) (f : A -> bool) l :
  NoDup (map g l) -> NoDup (map g (filter f l)).
Proof.
  induction l as [|a l IH]; simpl; intros H; [constructor|].
  inversion H as [|? ? Hn Hd]; subst.
  destruct (f a); simpl; auto.
  constructor; auto.
  intros Hin. apply Hn. apply in_map_iff in Hin as [y [Hy Hf]].
  apply filter_In in Hf as [Hf _]. apply in_map_iff. eauto.
Qed.

Lemma is_flush_restart t : is_restart t = negb (is_flush t).
Proof. unfold is_restart, is_flush. now destruct (callback t). Qed.

Lemma timers_ok_filter f ts nh t_o :
  timers_ok ts nh t_o -> timers_ok (filter f ts) nh t_o.
Proof.
  intros (Hd & Hb & Hf & Ht). split; [|split; [|split]].
  - now apply NoDup_map_filter.
  - intros t Hin. apply filter_In in Hin as [Hin _]. auto.
  - intros t Hin. apply filter_In in Hin as [Hin _]. now apply Hf.
  - exact Ht.
Qed.

Lemma timers_ok_flush ts nh t_o :
  timers_ok ts nh t_o -> timers_ok (without t_o ts) nh None.
Proof.
  intros (Hd & Hb & Hf & Ht).
  assert (forall t, In t (without t_o ts) -> In t ts /\ is_flush t = false) as K.
  { intros t Hin. destruct t_o as [h|]; simpl in Hin.
    - apply filter_In in Hin as [Hin Hh]. split; [exact Hin|].
      destruct (is_flush t) eqn:E; [|reflexivity].
      apply Hf in E; [|exact Hin]. injection E as ->.
      now rewrite Nat.eqb_refl in Hh.
    - split; [exact Hin|]. destruct (is_flush t) eqn:E; [|reflexivity].
      apply Hf in E; [discriminate | exact Hin]. }
  split; [|split; [|split]].
  - destruct t_o; simpl; [now apply NoDup_map_filter | exact Hd].
  - intros t Hin. apply K in Hin as [Hin _]. auto.
  - intros t Hin. apply K in Hin as [_ F]. rewrite F. split; discriminate.
  - discriminate.
Qed.

Lemma timers_ok_extend ts nh t_o d cb :
  timers_ok ts nh t_o ->
  (forall t, In t ts -> is_flush t = false) \/ cb = CbRestart ->
  timers_ok (ts ++ [mkTimer nh d cb]) (S nh)
    (match cb with CbFlush => Some nh | CbRestart => t_o end).
Proof.
  intros (Hd & Hb & Hf & Ht) Hcb. split; [|split; [|split]].
  - rewrite map_app. simpl. apply NoDup_app; auto.
    + constructor; [intros []|constructor].
    + intros a Ha [<-|[]]. apply in_map_iff in Ha as [t [<- Hin]].
      specialize (Hb t Hin). simpl in Hb. lia.
  - intros t Hin. apply in_app_or in Hin as [Hin|[<-|[]]]; simpl;
      [specialize (Hb t Hin) |]; lia.
  - intros t Hin. apply in_app_or in Hin as [Hin|[<-|[]]].
    + destruct cb.
      * destruct Hcb as [Hcb|Hcb]; [|discriminate].
        rewrite (Hcb t Hin). split; [discriminate|].
        intros E. injection E as E. specialize (Hb t Hin). lia.
      * now apply Hf.
    + destruct cb; simpl.
      * split; reflexivity.
      * split; [discriminate|]. intros E. apply Ht in E. lia.
  - intros h E. destruct cb; [injection E as <-; lia|]. apply Ht in E. lia.
Qed.

Lemma timers_ok_add ts nh t_o d :
  timers_ok ts nh t_o ->
  timers_ok (without t_o ts ++ [mkTimer nh d CbFlush]) (S nh) (Some nh).
Proof.
  intros H. pose proof (timers_ok_flush _ _ _ H) as F.
  apply (timers_ok_extend _ _ _ d CbFlush F).
  left. intros t Hin. destruct F as (_ & _ & Hf & _).
  destruct (is_flush t) eqn:E; [|reflexivity].
  apply Hf in E; [discriminate | exact Hin].
Qed.

Lemma timers_ok_restart ts nh t_o d :
  timers_ok ts nh t_o ->
  timers_ok (ts ++ [mkTimer nh d CbRestart]) (S nh) t_o.
Proof.
  intros H. apply (timers_ok_extend _ _ _ d CbRestart H). now right.
Qed.

Lemma wf_flush s : wf s -> wf (exec flush s).
Proof.
  unfold exec. rewrite flush_eq. destruct s as [[q b t] ? ? ? ? ? ? ? ? ? ? ? ? ? ? ?].
  unfold wf; proj. apply timers_ok_flush.
Qed.

Lemma wf_step s e : wf s -> wf (step s e).
Proof.
  intros H. destruct e;
  try (destruct s as [[q b t] ? ? ? ? ? ? ? ? ? ? ? ? ? ? ?]; unfold wf in *;
       handler_cases;
       auto using timers_ok_flush, timers_ok_add, timers_ok_restart; fail).
  unfold step, dispatch. rewrite elapse_eq.
  apply run_due_invariant.
  - intros s1 x H1 Hin _.
    assert (wf (exec (clearTimeout (handle x)) s1)) as H2.
    { destruct s1 as [[q b t] ? ? ? ? ? ? ? ? ? ? ? ? ? ? ?]. unfold wf in *.
      unfold exec, clearTimeout, modify; proj. now apply timers_ok_filter. }
    destruct (callback x); cbn [fire].
    + now apply wf_flush.
    + revert H2. generalize (exec (clearTimeout (handle x)) s1). intros s2 H2.
      destruct s2; exact H2.
  - destruct s; exact H.
Qed.

Lemma wf_initial : wf initial.
Proof.
  unfold wf, timers_ok. simpl. repeat split; try discriminate; try contradiction.
  constructor.
Qed.

Lemma NoDup_map_inj {A B} (g : A -> B) l a b :
  NoDup (map g l) -> In a l -> In b l -> g a = g b -> a = b.
Proof.
  induction l as [|c l IH]; simpl; intros Hd Ha Hb E; [contradiction|].
  inversion Hd as [|? ? Hn Hd']; subst.
  destruct Ha as [<-|Ha], Hb as [<-|Hb]; auto.
  - exfalso. apply Hn. rewrite E. now apply in_map.
  - exfalso. apply Hn. rewrite <- E. now apply in_map.
Qed.

Lemma filter_all_in {A} (f : A -> bool) l :
  (forall x, In x l -> f x = true) -> filter f l = l.
Proof.
  induction l as [|a l IH]; simpl; intros H; [reflexivity|].
  rewrite (H a) by auto. f_equal. apply IH. auto.
Qed.

Lemma pending_without_flush ts nh t_o :
  timers_ok ts nh t_o ->
  filter is_restart (without t_o ts) = filter is_restart ts.
Proof.
  intros (_ & _ & Hf & _). destruct t_o as [h|]; [|reflexivity]. simpl.
  rewrite filter_filter. apply filter_ext_in. intros t Hin.
  destruct (handle t =? h) eqn:E; [|reflexivity]. simpl.
  apply Nat.eqb_eq in E. subst h.
  rewrite is_flush_restart. destruct (Hf t Hin) as [_ K]. now rewrite K.
Qed.

Lemma pending_fired_flush ts x :
  NoDup (map handle ts) -> In x ts -> is_restart x = false ->
  filter is_restart (filter (fun t => negb (handle t =? handle x)) ts)
  = filter is_restart ts.
Proof.
  intros Hd Hin Hx. rewrite filter_filter. apply filter_ext_in. intros t Ht.
  destruct (handle t =? handle x) eqn:E; [|reflexivity]. simpl.
  apply Nat.eqb_eq in E.
  rewrite (NoDup_map_inj handle ts t x Hd Ht Hin E). now rewrite Hx.
Qed.

Lemma pending_fired_restart ts x :
  NoDup (map handle ts) -> In x ts -> is_restart x = true ->
  S (List.length
       (filter is_restart (filter (fun t => negb (handle t =? handle x)) ts)))
  = List.length (filter is_restart ts).
Proof.
  induction ts as [|a ts IH]; simpl; intros Hd Hin Hx; [contradiction|].
  inversion Hd as [|? ? Hn Hd']; subst.
  destruct Hin as [->|Hin].
  - rewrite Nat.eqb_refl, Hx. simpl. f_equal. f_equal. f_equal.
    apply filter_all_in. intros t Ht.
    destruct (handle t =? handle x) eqn:E; [|reflexivity].
    apply Nat.eqb_eq in E. exfalso. apply Hn. rewrite <- E. now apply in_map.
  - destruct (handle a =? handle x) eqn:E.
    + apply Nat.eqb_eq in E. exfalso. apply Hn. rewrite E. now apply in_map.
    + simpl. destruct (is_restart a); simpl; rewrite <- (IH Hd' Hin Hx); reflexivity.
Qed.

Lemma wf_fired s x :
  wf s -> wf (exec (fire (callback x)) (exec (clearTimeout (handle x)) s)).
Proof.
  intros W.
  assert (wf (exec (clearTimeout (handle x)) s)) as W2.
  { destruct s as [[q b t] ? ? ? ? ? ? ? ? ? ? ? ? ? ? ?]. unfold wf in *.
    unfold exec, clearTimeout, modify; proj. now apply timers_ok_filter. }
  destruct (callback x); cbn [fire]; [now apply wf_flush|].
  revert W2. generalize (exec (clearTimeout (handle x)) s). intros s2 W2.
  destruct s2; exact W2.
Qed.

Lemma budget_step s e : wf s -> budget s -> budget (step s e).
Proof.
  intros W B. destruct e;
  try (destruct s as [[q b t] ? ? ? ? ? ? ? ? ? ? ? ? ? ? ?];
       unfold wf, budget, pending_restarts in *;
       handler_cases;
       rewrite ?filter_app, ?(pending_without_flush _ _ _ W), ?length_app;
       simpl; try lia; auto; fail).
  unfold step, dispatch. rewrite elapse_eq.
  apply proj2 with (A := wf (exec (run_due (List.length (timers s)))
                                  (with_now (now s + d) s))).
  apply run_due_invariant with (P := fun s' => wf s' /\ budget s').
  - intros s1 x [W1 B1] Hin _.
    split; [now apply wf_fired|].
    + destruct s1 as [[q b t] ? ? ? ? ? ? ? ? ? ? ? ? ? ? ?].
      unfold wf, budget, pending_restarts in *. proj.
      pose proof W1 as (Hd & Hb & Hf & Ht).
      unfold exec, clearTimeout, modify; proj.
      destruct (callback x) eqn:C; cbn [fire].
      * rewrite flush_eq; proj.
        assert (is_restart x = false) as R by (unfold is_restart; now rewrite C).
        assert (timers_ok (filter (fun t0 => negb (handle t0 =? handle x)) timers0)
                  next_handle0 t) as W2
          by (apply timers_ok_filter; exact W1).
        rewrite (pending_without_flush _ _ _ W2).
        rewrite (pending_fired_flush _ _ Hd Hin R). exact B1.
      * unfold startTTS, spawn, bind, modify; proj.
        assert (is_restart x = true) as R by (unfold is_restart; now rewrite C).
        pose proof (pending_fired_restart _ _ Hd Hin R) as L. lia.
  - split; destruct s; [exact W | exact B].
Qed.

Lemma registry_filter (f : WebSocketClient -> bool) cs n :
  NoDup (map addr cs) /\ (forall c, In c cs -> addr c < n) ->
  NoDup (map addr (filter f cs)) /\ (forall c, In c (filter f cs) -> addr c < n).
Proof.
  intros [Hd Hb]. split; [now apply NoDup_map_filter|].
  intros c Hin. apply filter_In in Hin as [Hin _]. auto.
Qed.

Lemma registry_add cs n w i :
  NoDup (map addr cs) /\ (forall c, In c cs -> addr c < n) ->
  NoDup (map addr (cs ++ [mkClient n w i])) /\
  (forall c, In c (cs ++ [mkClient n w i]) -> addr c < S n).
Proof.
  intros [Hd Hb]. split.
  - rewrite map_app. simpl. apply NoDup_app; auto.
    + constructor; [intros []|constructor].
    + intros a Ha [<-|[]]. apply in_map_iff in Ha as [c [E Hin]].
      specialize (Hb c Hin). lia.
  - intros c Hin. apply in_app_or in Hin as [Hin|[<-|[]]]; simpl;
      [specialize (Hb c Hin)|]; lia.
Qed.

Lemma registry_weaken cs n :
  NoDup (map addr cs) /\ (forall c, In c cs -> addr c < n) ->
  NoDup (map addr cs) /\ (forall c, In c cs -> addr c < S n).
Proof. intros [Hd Hb]. split; [exact Hd|]. intros c Hin. specialize (Hb c Hin). lia. Qed.

Lemma registry_fired s x :
  registry_ok s ->
  registry_ok (exec (fire (callback x)) (exec (clearTimeout (handle x)) s)).
Proof.
  destruct s as [[q b t] ? ? ? ? ? ? ? ? ? ? ? ? ? ? ?].
  unfold registry_ok, exec, clearTimeout, modify; proj.
  destruct (callback x); cbn [fire].
  - rewrite flush_eq; proj. auto.
  - unfold startTTS, spawn, bind, modify; proj. auto.
Qed.

Lemma registry_step s e : registry_ok s -> registry_ok (step s e).
Proof.
  intros R. destruct e;
  try (destruct s as [[q b t] ? ? ? ? ? ? ? ? ? ? ? ? ? ? ?];
       unfold registry_ok in *;
       handler_cases; unfold survivors; proj;
       auto using registry_filter, registry_add, registry_weaken; fail).
  unfold step, dispatch. rewrite elapse_eq.
  apply run_due_invariant.
  - intros s1 x R1 _ _. now apply registry_fired.
  - destruct s; exact R.
Qed.

(** Every state the server can reach satisfies the three invariants. *)
Lemma reachable_invariants es :
  let s := run es initial in wf s /\ budget s /\ registry_ok s.
Proof.
  cbv zeta. induction es as [|e es IH] using rev_ind.
  - split; [exact wf_initial|]. split.
    + unfold budget. simpl. split; [lia | reflexivity].
    + unfold registry_ok. simpl. split; [constructor | contradiction].
  - rewrite run_app. cbn [run fold_left].
    destruct IH as (W & B & R).
    auto using wf_step, budget_step, registry_step.
Qed.

(* ===================================================================== *)
(** * Broadcasts and runs *)
(* ===================================================================== *)



(** What one failure signal does, all clients being able to receive. *)
Lemma run_snoc es e s : run (es ++ [e]) s = step (run es s) e.
Proof. now rewrite run_app. Qed.

(* ===================================================================== *)
(** * Broadcast *)
(* ===================================================================== *)

Lemma survivors_accepting s :
  NoDup (map addr (clients s)) ->
  survivors s (clients s) = filter (accepts s) (clients s).
Proof.
  intros Hd. unfold survivors. apply filter_ext_in. intros x Hx.
  destruct (accepts s x) eqn:A.
  - apply negb_true_iff. apply not_true_is_false. intros E.
    apply existsb_exists in E as [c [Hc E]].
    apply andb_prop in E as [E1 E2]. apply Nat.eqb_eq in E1.
    rewrite (NoDup_map_inj addr (clients s) x c Hd Hx Hc E1) in A.
    rewrite A in E2. discriminate.
  - apply negb_false_iff. apply existsb_exists. exists x.
    split; [exact Hx|]. now rewrite Nat.eqb_refl, A.
Qed.




(* ===================================================================== *)
(** * Failure signals *)
(* ===================================================================== *)

(** A failure signal is a call of [restartTTS], after the feed loop has
    taken its phrase when the signal is a write that throws. *)
Lemma signal_effect s e :
  signals s e = true ->
  step s e = exec restartTTS (match e with FeedTick => dequeued s | _ => s end).
Proof.
  intros H. destruct e; try discriminate H; cbn [signals] in H.
  - (* ProcError *)
    unfold step, exec, dispatch, listening, on_error, bind, gets. now rewrite H.
  - (* ProcExit *)
    destruct code as [c|]; [|discriminate H].
    apply andb_prop in H as [Hp Hc]. apply negb_true_iff in Hc.
    unfold step, exec, dispatch, listening, on_exit, bind, gets. now rewrite Hp, Hc.
  - (* FeedTick *)
    destruct s as [[q b t] ? ? ? ? ? ? ? ? ? ? ? ? ? ? ?]. proj.
    destruct q as [|ph q]; [discriminate H|].
    destruct ttsProcess0 as [[pid [pipe|]]|]; try discriminate H.
    apply andb_prop in H as [Ht Hb].
    unfold dequeued. open_handler; proj. rewrite Ht; proj. rewrite Hb; proj.
    reflexivity.
Qed.

Lemma restartTTS_counts s :
  restarts (exec restartTTS s) = (restarts s + 1)%Z.
Proof.
  unfold exec. rewrite restartTTS_eq.
  destruct (restarts s <? 5)%Z; [destruct s; reflexivity|].
  rewrite broadcast_eq. destruct s; reflexivity.
Qed.

Lemma calm_fired s x :
  restarts (exec (fire (callback x)) (exec (clearTimeout (handle x)) s)) = restarts s /\
  sent (exec (fire (callback x)) (exec (clearTimeout (handle x)) s)) = sent s.
Proof.
  destruct s as [[q b t] ? ? ? ? ? ? ? ? ? ? ? ? ? ? ?].
  unfold exec, clearTimeout, modify; proj.
  destruct (callback x); cbn [fire].
  - rewrite flush_eq; proj. split; reflexivity.
  - unfold startTTS, spawn, bind, modify; proj. split; reflexivity.
Qed.

(** An event that is no failure signal leaves the restart counter and
    the [error] events of the worker as they are. *)
Lemma calm_counts s e :
  signals s e = false ->
  restarts (step s e) = restarts s /\
  filter is_unavailable (sent (step s e)) = filter is_unavailable (sent s).
Proof.
  intros H.
  destruct e; cbn [signals] in H;
  try (destruct s as [[q b t] ? ? ? ? ? ? ? ? ? ? ? ? ? ? ?];
       handler_cases;
       rewrite ?filter_app, ?unavailable_deliveries, ?app_nil_r by reflexivity;
       split; reflexivity).
  - (* ProcError *)
    unfold step, exec, dispatch, listening, on_error, bind, gets. rewrite H.
    split; reflexivity.
  - (* ProcExit *)
    unfold step, exec, dispatch, listening, on_exit, bind, gets.
    destruct (p <? next_pid s); [|split; reflexivity].
    destruct code as [c|]; [|split; reflexivity].
    cbn in H. apply negb_false_iff in H. rewrite H. split; reflexivity.
  - (* FeedTick *)
    destruct s as [[q b t] ? ? ? ? ? ? ? ? ? ? ? ? ? ? ?]. proj.
    destruct q as [|ph q]; [split; reflexivity|].
    destruct ttsProcess0 as [[pid [pipe|]]|]; try (split; reflexivity).
    open_handler; proj.
    destruct (truthy ph); proj; [|split; reflexivity]. cbn in H. rewrite H; proj.
    split; reflexivity.
  - (* Elapse *)
    unfold step, dispatch. rewrite elapse_eq.
    apply run_due_invariant
      with (P := fun s' => restarts s' = restarts s /\
                           filter is_unavailable (sent s')
                           = filter is_unavailable (sent s)).
    + intros s1 x [R S] _ _. destruct (calm_fired s1 x) as [R1 S1].
      now rewrite R1, S1.
    + destruct s; split; reflexivity.
Qed.

(** The restart counter counts the failure signals. *)
Lemma restarts_counted es : forall s,
  restarts (run es s) = (restarts s + Z.of_nat (signal_count es s))%Z.
Proof.
  induction es as [|e es IH]; intros s; [simpl; lia|].
  cbn [run fold_left signal_count]. fold (run es (step s e)). rewrite IH.
  destruct (signals s e) eqn:S.
  - rewrite (signal_effect s e S), restartTTS_counts.
    assert (restarts (match e with FeedTick => dequeued s | _ => s end) = restarts s)
      as -> by (destruct e; try reflexivity; destruct s; reflexivity).
    lia.
  - rewrite (proj1 (calm_counts s e S)). lia.
Qed.

(** C2 (amended).  Restart attempts are bounded.  The restart counter
    counts the failure signals: the [error] event of a worker, its exit
    with a code other than 0 and [null], and a write of the feed loop that
    throws.  In every reachable state the processes spawned and the
    restarts pending add up to one start plus one restart per signal
    counted, five at most.  A signal that finds the counter below five
    schedules one restart a second later and sends nothing; every later
    one schedules nothing and sends one more [error] event to each client
    whose send returns, dropping the others: one per signal, not one for
    all. *)
Theorem restart_attempts_bounded (es : list Event) (e : Event) :
  let s := run es initial in
  signals s e = true ->
  let s' := step s e in
  restarts s = Z.of_nat (signal_count es initial) /\
  budget s /\ budget s' /\
  restarts s' = (restarts s + 1)%Z /\
  next_pid s' = next_pid s /\
  if (restarts s <? 5)%Z
  then timers s' = timers s ++ [mkTimer (next_handle s) (now s + 1000) CbRestart] /\
       sent s' = sent s /\
       clients s' = clients s
  else timers s' = timers s /\
       sent s' = sent s ++ deliveries unavailable (filter (accepts s) (clients s)) /\
       clients s' = filter (accepts s) (clients s).
Proof.
  intros s H s'.
  destruct (reachable_invariants es) as (_ & B & [Hd _]). fold s in B, Hd.
  destruct (reachable_invariants (es ++ [e])) as (_ & B' & _).
  rewrite run_snoc in B'. fold s in B'. fold s' in B'.
  split; [unfold s; now rewrite restarts_counted|].
  split; [exact B|]. split; [exact B'|].
  unfold s'. rewrite (signal_effect s e H).
  set (s0 := match e with FeedTick => dequeued s | _ => s end).
  assert (restarts s0 = restarts s /\ next_pid s0 = next_pid s /\
          timers s0 = timers s /\ next_handle s0 = next_handle s /\
          now s0 = now s /\ sent s0 = sent s /\ clients s0 = clients s /\
          closed s0 = closed s) as (E1 & E2 & E3 & E4 & E5 & E6 & E7 & E8).
  { unfold s0. destruct e; repeat split; reflexivity. }
  split; [now rewrite restartTTS_counts, E1|].
  assert (survivors s0 (clients s0) = filter (accepts s) (clients s)) as Sv.
  { rewrite survivors_accepting by (now rewrite E7). rewrite E7.
    apply filter_ext. intros x. unfold accepts. now rewrite E8. }
  assert (filter (accepts (with_restarts (restarts s0 + 1) s0)) (clients s0)
          = filter (accepts s) (clients s)) as Fa.
  { rewrite E7. apply filter_ext. intros x. unfold accepts.
    destruct s0; proj. simpl in E8. now rewrite E8. }
  unfold exec. rewrite restartTTS_eq, <- E1.
  destruct (restarts s0 <? 5)%Z.
  - rewrite <- E2, <- E3, <- E4, <- E5, <- E6, <- E7.
    destruct s0; repeat split; reflexivity.
  - rewrite broadcast_eq.
    assert (survivors (with_restarts (restarts s0 + 1) s0)
              (clients (with_restarts (restarts s0 + 1) s0))
            = filter (accepts s) (clients s)) as Sv'.
    { rewrite <- Sv. destruct s0; reflexivity. }
    assert (clients (with_restarts (restarts s0 + 1) s0) = clients s0) as Ec
      by (destruct s0; reflexivity).
    rewrite Sv', Ec, Fa. rewrite <- E2, <- E3, <- E6.
    destruct s0; repeat split; reflexivity.
Qed.

Lemma restart_attempts_bounded_witness :
  let s := run (six_failures ++ write_will_fail) initial in
  let s' := step s FeedTick in
  restarts s = Z.of_nat (signal_count (six_failures ++ write_will_fail) initial) /\
  budget s /\ budget s' /\
  restarts s' = (restarts s + 1)%Z /\
  next_pid s' = next_pid s /\
  if (restarts s <? 5)%Z
  then timers s' = timers s ++ [mkTimer (next_handle s) (now s + 1000) CbRestart] /\
       sent s' = sent s /\
       clients s' = clients s
  else timers s' = timers s /\
       sent s' = sent s ++ deliveries unavailable (filter (accepts s) (clients s)) /\
       clients s' = filter (accepts s) (clients s).
Proof.
  apply (restart_attempts_bounded (six_failures ++ write_will_fail) FeedTick).
  reflexivity.
Defined.

(** C2 (as stated, refuted).  Six workers fail in turn; the sixth failure
    finds the budget spent and one [error] event is sent.  A phrase is
    then queued and the write to the last worker's pipe throws: a second
    [error] event is sent.  Likewise when the last worker reports an
    error and then exits with code 1: each of the two signals sends its
    own [error] event. *)
Lemma error_event_repeated :
  (let s := run six_failures initial in
   let s' := run failed_write_after s in
   restarts s = 6%Z /\ next_pid s = 6 /\
   filter is_unavailable (sent s) = [(1, unavailable)] /\
   restarts s' = 7%Z /\ next_pid s' = 6 /\ timers s' = [] /\
   filter is_unavailable (sent s') = [(1, unavailable); (1, unavailable)]) /\
  (let s := run last_worker_reports_twice initial in
   restarts s = 7%Z /\ next_pid s = 6 /\ timers s = [] /\
   filter is_unavailable (sent s) = [(1, unavailable); (1, unavailable)]).
Proof. vm_compute. repeat split; reflexivity. Qed.

(* ===================================================================== *)
(** * Audio frames *)
(* ===================================================================== *)

Lemma audio_text_deliveries m cs :
  filter is_binary (deliveries (Text m) cs) = [].
Proof. induction cs as [|c cs IH]; simpl; auto. Qed.

Lemma audio_binary_deliveries b cs :
  filter is_binary (deliveries (Binary b) cs) = deliveries (Binary b) cs.
Proof. induction cs as [|c cs IH]; simpl; [|rewrite IH]; auto. Qed.

Lemma audio_fired s x :
  audio_sent (exec (fire (callback x)) (exec (clearTimeout (handle x)) s))
  = audio_sent s.
Proof.
  destruct s as [[q b t] ? ? ? ? ? ? ? ? ? ? ? ? ? ? ?].
  unfold audio_sent, exec, clearTimeout, modify; proj.
  destruct (callback x); cbn [fire].
  - rewrite flush_eq; proj. reflexivity.
  - unfold startTTS, spawn, bind, modify; proj. reflexivity.
Qed.

(** Only a chunk from the worker adds binary payloads to what is sent. *)
Lemma audio_step s e :
  audio_sent (step s e) =
  audio_sent s ++
  match e with
  | ProcStdout p pcm =>
      if p <? next_pid s
      then deliveries (Binary pcm) (filter (accepts s) (clients s))
      else []
  | _ => []
  end.
Proof.
  destruct e;
  try (destruct s as [[q b t] ? ? ? ? ? ? ? ? ? ? ? ? ? ? ?];
       unfold audio_sent in *;
       handler_cases; unfold unavailable;
       rewrite ?filter_app, ?audio_text_deliveries, ?audio_binary_deliveries, ?app_nil_r;
       reflexivity).
  rewrite app_nil_r. unfold step, dispatch. rewrite elapse_eq.
  apply run_due_invariant with (P := fun s' => audio_sent s' = audio_sent s).
  - intros s1 x E _ _. now rewrite audio_fired.
  - destruct s; reflexivity.
Qed.

(** Every binary payload sent is a chunk the worker wrote. *)
Lemma audio_is_worker_output es : forall s w b,
  In (w, Binary b) (audio_sent (run es s)) ->
  In (w, Binary b) (audio_sent s) \/ exists p, In (ProcStdout p b) es.
Proof.
  induction es as [|e es IH]; intros s w b Hin; [now left|].
  simpl in Hin. apply IH in Hin as [Hin|[p Hp]].
  - rewrite audio_step in Hin. apply in_app_or in Hin as [Hin|Hin]; [now left|].
    right. destruct e; try contradiction.
    destruct (p <? next_pid s); [|contradiction].
    apply in_map_iff in Hin as [c [E _]]. injection E as _ ->.
    exists p. now left.
  - right. exists p. now right.
Qed.

(** C7 (amended).  A chunk read from the worker's stdout is forwarded as
    it is, in one binary send to each registered client whose socket
    accepts it; every binary payload ever sent is such a chunk, whole.
    Its length is the length of the chunk: it is a multiple of 4 when the
    worker's chunks are, and the server does nothing to make it so. *)
Theorem audio_forwarded_verbatim
    (es : list Event) (p : nat) (pcm : list byte) :
  let s := run es initial in
  p < next_pid s ->
  sent (step s (ProcStdout p pcm))
    = sent s ++ deliveries (Binary pcm) (filter (accepts s) (clients s)) /\
  (forall w b, In (w, Binary b) (sent s) -> exists q, In (ProcStdout q b) es) /\
  ((forall q b, In (ProcStdout q b) es -> List.length b mod 4 = 0) ->
   forall w b, In (w, Binary b) (sent s) -> List.length b mod 4 = 0).
Proof.
  intros s Hp.
  assert (forall w b, In (w, Binary b) (sent s) -> exists q, In (ProcStdout q b) es) as K.
  { intros w b Hin.
    assert (In (w, Binary b) (audio_sent s)) as Ha
      by (apply filter_In; split; [exact Hin | reflexivity]).
    apply audio_is_worker_output in Ha as [Ha|Ha]; [|exact Ha].
    vm_compute in Ha. contradiction. }
  split; [|split; [exact K|]].
  - unfold step, exec, dispatch, listening, on_stdout, bind, gets.
    apply Nat.ltb_lt in Hp. rewrite Hp, broadcast_eq.
    generalize (survivors s (clients s)). intros l. destruct s; reflexivity.
  - intros Hm w b Hin. destruct (K w b Hin) as [q Hq]. eauto.
Qed.

Lemma audio_forwarded_verbatim_witness :
  let s := run one_of_two_fails initial in
  sent (step s (ProcStdout 0 [x00; x00; x80; x3f]))
    = sent s ++ deliveries (Binary [x00; x00; x80; x3f])
                  (filter (accepts s) (clients s)) /\
  (forall w b, In (w, Binary b) (sent s) ->
     exists q, In (ProcStdout q b) one_of_two_fails) /\
  ((forall q b, In (ProcStdout q b) one_of_two_fails -> List.length b mod 4 = 0) ->
   forall w b, In (w, Binary b) (sent s) -> List.length b mod 4 = 0).
Proof.
  apply (audio_forwarded_verbatim one_of_two_fails 0 [x00; x00; x80; x3f]).
  vm_compute. lia.
Defined.

(** C7 (as stated, refuted).  The worker's pipe delivers a chunk of three
    bytes; the client is sent a binary payload of three bytes. *)
Lemma audio_payload_not_aligned :
  let s := run short_chunk initial in
  In (1, Binary [x01; x02; x03]) (sent s) /\
  List.length [x01; x02; x03] mod 4 <> 0.
Proof. vm_compute. split; [right; left; reflexivity | discriminate]. Qed.

(* ===================================================================== *)
(** * The text path *)
(* ===================================================================== *)

(** A valid chat message makes its handler wait on the socket it came on. *)
Lemma message_suspends s w ty prompt :
  is_chat ty && val_truthy prompt = true ->
  requests (step s (WsMessage w (JsonValue ty prompt)))
    = requests s ++ [(next_request s, w)] /\
  sent (step s (WsMessage w (JsonValue ty prompt))) = sent s.
Proof.
  intros H. unfold step, exec, dispatch, message, try_catch, bind. rewrite H.
  rewrite clear_eq. destruct s; split; reflexivity.
Qed.

(** C1 (amended).  While the handler of a request issued on socket [w] is
    waiting, each text increment of the upstream generation is sent as one
    [text_chunk] on [w] and on no other socket, and is appended to the
    phrase buffer; the end of the stream is followed by one
    [text_complete] on [w] and on no other socket.  The registry is not
    consulted. *)
Theorem text_sent_to_requester
    (s : State) (rid : nat) (w : socket) (text : jsstring) :
  find (fun r => fst r =? rid) (requests s) = Some (rid, w) ->
  existsb (Nat.eqb w) (closed s) = false ->
  let s1 := step s (StreamText rid text) in
  let s2 := step s (StreamEnd rid) in
  sent s1 = sent s ++ [(w, Text (MsgTextChunk text))] /\
  buffer (ttsQueue s1) = buffer (ttsQueue s) ++ text /\
  clients s1 = clients s /\
  sent s2 = sent s ++ [(w, Text MsgTextComplete)] /\
  clients s2 = clients s.
Proof.
  intros Hr Hw. cbv zeta.
  destruct s as [[q b t] ? ? ? ? ? ? ? ? ? ? ? ? ? ? ?]; proj.
  unfold step, exec, dispatch, on_text, on_end, resume, finish, bind, gets.
  proj. rewrite Hr. unfold try_catch, bind, modify, ws_send. proj.
  rewrite Hw, flush_eq, add_eq. proj. rewrite Hw. repeat split.
Qed.

Lemma text_sent_to_requester_witness :
  let s := run [ WsOpen 1 (lit "0.4fzyo82mvyr"); WsOpen 2 (lit "0.8jx1k3w9q2b");
                 WsMessage 1 (chat "Hi") ] initial in
  let s1 := step s (StreamText 0 (lit "Hello")) in
  let s2 := step s (StreamEnd 0) in
  sent s1 = sent s ++ [(1, Text (MsgTextChunk (lit "Hello")))] /\
  buffer (ttsQueue s1) = buffer (ttsQueue s) ++ lit "Hello" /\
  clients s1 = clients s /\
  sent s2 = sent s ++ [(1, Text MsgTextComplete)] /\
  clients s2 = clients s.
Proof.
  apply (text_sent_to_requester
           (run [ WsOpen 1 (lit "0.4fzyo82mvyr"); WsOpen 2 (lit "0.8jx1k3w9q2b");
                  WsMessage 1 (chat "Hi") ] initial)
           0 1 (lit "Hello")); reflexivity.
Defined.

(** C1 (as stated, refuted).  Two clients are registered; the first one
    asks.  The [text_chunk] and the [text_complete] go to the first
    client; the second one is sent nothing after its [connected]. *)
Lemma text_not_broadcast :
  let s := run two_clients_one_asks initial in
  map ws (clients s) = [1; 2] /\
  received 1 s = [ Text (MsgConnected (lit "82mvyr"));
                   Text (MsgTextChunk (lit "Hello"));
                   Text MsgTextComplete ] /\
  received 2 s = [ Text (MsgConnected (lit "3w9q2b")) ].
Proof. vm_compute. repeat split; reflexivity. Qed.

(* ===================================================================== *)
(** * Client identifiers *)
(* ===================================================================== *)

(** C9 (amended).  A connecting client gets a registry entry of its own:
    its reference is fresh, references are never shared and never handed
    out again.  Its identifier is what follows the first seven characters
    of the base-36 rendering of the random number drawn, whatever
    identifiers are or were in use. *)
Theorem open_registers_fresh_entry
    (es : list Event) (w : socket) (draw : jsstring) :
  let s := run es initial in
  let s' := step s (WsOpen w draw) in
  clients s' = clients s ++ [mkClient (next_addr s) w (substring 7 draw)] /\
  NoDup (map addr (clients s')) /\
  next_addr s' = S (next_addr s) /\
  (forall c, In c (clients s) -> addr c < next_addr s).
Proof.
  intros s s'.
  destruct (reachable_invariants es) as (_ & _ & R). fold s in R.
  destruct (reachable_invariants (es ++ [WsOpen w draw])) as (_ & _ & R').
  rewrite run_snoc in R'. fold s in R'. fold s' in R'.
  destruct R as [Hd Hb]. destruct R' as [Hd' _].
  split; [|split; [exact Hd'|split; [|exact Hb]]]; subst s'; clear Hd'; clearbody s.
  - assert (existsb (fun x => addr x =? next_addr s) (clients s) = false) as F.
    { apply not_true_is_false. intros E. apply existsb_exists in E as [c [Hc E]].
      apply Nat.eqb_eq in E. specialize (Hb c Hc). lia. }
    destruct s as [[q b t] ? ? ? ? ? ? ? ? ? ? ? ? ? ? ?]; proj.
    unfold step, exec, dispatch, open, Set_add, ws_send, bind, gets, modify.
    proj. cbn [addr]. rewrite F. proj.
    destruct (existsb (Nat.eqb w) closed0); reflexivity.
  - destruct s as [[q b t] ? ? ? ? ? ? ? ? ? ? ? ? ? ? ?]; proj.
    unfold step, exec, dispatch, open, Set_add, ws_send, bind, gets, modify.
    proj. repeat (split_match; proj); reflexivity.
Qed.

(** C9 (as stated, refuted).  Two clients are connected at once and both
    have the empty identifier; and a client that connects after another
    has left is given the identifier the other one had. *)
Lemma identifiers_collide :
  map id (clients (run short_draws initial)) = [ []; [] ] /\
  received 1 (run same_draw_again initial) = [ Text (MsgConnected (lit "82mvyr")) ] /\
  received 2 (run same_draw_again initial) = [ Text (MsgConnected (lit "82mvyr")) ] /\
  map id (clients (run same_draw_again initial)) = [ lit "82mvyr" ].
Proof. vm_compute. repeat split; reflexivity. Qed.

(* ===================================================================== *)
(** * The phrase aggregator *)
(* ===================================================================== *)

Lemma phrase_of_blank_prefix w b :
  blank w = true -> phrase_of (w ++ b) = phrase_of b.
Proof. intros H. unfold phrase_of. now rewrite trim_app_blank. Qed.

Lemma filter_shorter {A} (f : A -> bool) l x :
  In x l -> f x = false -> List.length (filter f l) < List.length l.
Proof.
  induction l as [|a l IH]; simpl; intros Hin Hx; [contradiction|].
  destruct Hin as [->|Hin].
  - rewrite Hx. pose proof (filter_length_le f l). lia.
  - specialize (IH Hin Hx). destruct (f a); simpl; lia.
Qed.

Lemma earliest_due_Some t ts x :
  In x ts -> due x <= t -> earliest_due t ts <> None.
Proof.
  induction ts as [|a ts IH]; simpl; intros Hin Hd; [contradiction|].
  destruct Hin as [->|Hin].
  - apply Nat.leb_le in Hd. rewrite Hd. destruct (earliest_due t ts); discriminate.
  - destruct (due a <=? t); [destruct (earliest_due t ts); discriminate | auto].
Qed.

(** The callback of a restart timer leaves the queue object, the clock
    and the flush timers alone. *)
Lemma fired_restart s x :
  wf s -> In x (timers s) -> callback x = CbRestart ->
  let s' := exec (fire (callback x)) (exec (clearTimeout (handle x)) s) in
  wf s' /\ ttsQueue s' = ttsQueue s /\ now s' = now s /\
  next_handle s' = next_handle s /\
  pending_flushes s' = pending_flushes s /\
  List.length (timers s') < List.length (timers s).
Proof.
  intros W Hin C. cbv zeta. split; [now apply wf_fired|].
  rewrite C. destruct W as (Hnd & _).
  destruct s as [[q b t] ? ? ? ? ? ? ? ? ? ? ? ? ? ? ?].
  unfold pending_flushes, exec, clearTimeout, fire, startTTS, spawn, bind, modify in *.
  proj. repeat split.
  - rewrite filter_filter. apply filter_ext_in. intros y Hy.
    destruct (handle y =? handle x) eqn:E; [|reflexivity]. simpl.
    apply Nat.eqb_eq in E.
    rewrite (NoDup_map_inj handle timers0 y x Hnd Hy Hin E).
    unfold is_flush. now rewrite C.
  - apply filter_shorter with (x := x); [exact Hin|]. now rewrite Nat.eqb_refl.
Qed.

Lemma not_flush_restart x : is_flush x = false -> callback x = CbRestart.
Proof. unfold is_flush. destruct (callback x); [discriminate | reflexivity]. Qed.

(** While no flush timer is due, the callbacks that run leave the queue
    object, the clock and the flush timers alone. *)
Lemma run_due_keeps_queue n s :
  wf s ->
  (forall t, In t (timers s) -> is_flush t = true -> now s < due t) ->
  let s' := exec (run_due n) s in
  wf s' /\ ttsQueue s' = ttsQueue s /\ now s' = now s /\
  next_handle s' = next_handle s /\
  pending_flushes s' = pending_flushes s.
Proof.
  intros W H. cbv zeta.
  apply run_due_invariant with
    (P := fun s' => wf s' /\ ttsQueue s' = ttsQueue s /\ now s' = now s /\
                    next_handle s' = next_handle s /\
                    pending_flushes s' = pending_flushes s);
    [|split; [exact W | repeat split]].
  intros s1 x (W1 & Eq & En & Eh & Ef) Hin Hd.
  assert (is_flush x = false) as Fx.
  { destruct (is_flush x) eqn:E; [|reflexivity]. exfalso.
    assert (In x (pending_flushes s)) as K
      by (rewrite <- Ef; apply filter_In; split; assumption).
    apply filter_In in K as [K1 K2]. specialize (H x K1 K2). lia. }
  destruct (fired_restart s1 x W1 Hin (not_flush_restart x Fx))
    as (W2 & Eq2 & En2 & Eh2 & Ef2 & _).
  split; [exact W2|]. repeat split; congruence.
Qed.

Lemma no_flush_pending ts nh :
  timers_ok ts nh None -> filter is_flush ts = [].
Proof.
  intros (_ & _ & Hf & _). induction ts as [|a ts IH]; simpl; [reflexivity|].
  destruct (is_flush a) eqn:E.
  - apply Hf in E; [discriminate | now left].
  - apply IH. intros t Hin. apply Hf. now right.
Qed.

Lemma exec_bind {A B} (m : JS A) (k : A -> JS B) s a :
  fst (m s) = Normal a -> exec (bind m k) s = exec (k a) (exec m s).
Proof. unfold exec, bind. destruct (m s) as [c s']. simpl. now intros ->. Qed.

Lemma elapse_returns d s : fst (elapse d s) = Normal tt.
Proof. unfold elapse, bind, modify, gets. apply run_due_returns. Qed.

Lemma add_returns t s : fst (add t s) = Normal tt.
Proof. now rewrite add_eq. Qed.

(** [add] appends to the buffer and leaves exactly one flush timer, due in
    200 ms. *)
Lemma add_arms t s :
  wf s ->
  let s' := exec (add t) s in
  wf s' /\ queue (ttsQueue s') = queue (ttsQueue s) /\
  buffer (ttsQueue s') = buffer (ttsQueue s) ++ t /\
  pending_flushes s' = [mkTimer (next_handle s) (now s + 200) CbFlush] /\
  now s' = now s.
Proof.
  intros W. cbv zeta. unfold exec. rewrite add_eq.
  destruct s as [[q b t_o] ? ? ? ? ? ? ? ? ? ? ? ? ? ? ?].
  unfold wf, pending_flushes in *. proj.
  split; [now apply timers_ok_add|]. repeat split.
  rewrite filter_app. rewrite (no_flush_pending _ _ (timers_ok_flush _ _ _ W)).
  reflexivity.
Qed.

(** Less than the quiet period passes: the armed flush timer stays. *)
Lemma elapse_within d s h T :
  wf s -> pending_flushes s = [mkTimer h T CbFlush] -> now s + d < T ->
  let s' := exec (elapse d) s in
  wf s' /\ ttsQueue s' = ttsQueue s /\ now s' = now s + d /\
  pending_flushes s' = pending_flushes s.
Proof.
  intros W Hf Hd. cbv zeta. rewrite elapse_eq.
  set (s0 := with_now (now s + d) s).
  assert (wf s0) as W0 by (destruct s; exact W).
  assert (pending_flushes s0 = pending_flushes s) as F0 by (destruct s; reflexivity).
  assert (now s0 = now s + d) as N0 by (destruct s; reflexivity).
  assert (ttsQueue s0 = ttsQueue s) as Q0 by (destruct s; reflexivity).
  destruct (run_due_keeps_queue (List.length (timers s)) s0 W0)
    as (W1 & Eq & En & _ & Ef).
  { intros t Hin Ft.
    assert (In t (pending_flushes s0)) as K by (apply filter_In; split; assumption).
    rewrite F0, Hf in K. destruct K as [<-|[]]. simpl. lia. }
  split; [exact W1|]. repeat split; congruence.
Qed.

(** A timer table with a pending flush timer: [timeout] holds its handle. *)
Lemma armed_timeout s h T :
  wf s -> pending_flushes s = [mkTimer h T CbFlush] ->
  timeout (ttsQueue s) = Some h /\ In (mkTimer h T CbFlush) (timers s).
Proof.
  intros (_ & _ & Hf & _) E.
  assert (In (mkTimer h T CbFlush) (pending_flushes s)) as K by (rewrite E; now left).
  apply filter_In in K as [K1 K2]. split; [|exact K1].
  now apply (Hf _ K1).
Qed.

(** The increments that follow the first one of a burst. *)
Lemma add_within_accumulates rest : forall s h,
  wf s -> within_quiet_period rest = true ->
  pending_flushes s = [mkTimer h (now s + 200) CbFlush] ->
  let s' := exec (add_within rest) s in
  wf s' /\ queue (ttsQueue s') = queue (ttsQueue s) /\
  buffer (ttsQueue s') = buffer (ttsQueue s) ++ List.concat (map snd rest) /\
  exists h', pending_flushes s' = [mkTimer h' (now s' + 200) CbFlush].
Proof.
  induction rest as [|[d t] rest IH]; intros s h W Hq Hf; cbv zeta.
  - simpl. rewrite app_nil_r.
    split; [exact W|]. split; [reflexivity|]. split; [reflexivity|]. now exists h.
  - simpl in Hq. apply andb_prop in Hq as [Hd Hq]. apply Nat.ltb_lt in Hd.
    cbn [add_within].
    rewrite (exec_bind _ _ s tt (elapse_returns d s)).
    destruct (elapse_within d s h (now s + 200) W Hf) as (W1 & Q1 & N1 & F1); [lia|].
    set (s1 := exec (elapse d) s) in *.
    rewrite (exec_bind _ _ s1 tt (add_returns t s1)).
    destruct (add_arms t s1 W1) as (W2 & Q2 & B2 & F2 & N2).
    set (s2 := exec (add t) s1) in *.
    rewrite <- N2 in F2.
    destruct (IH s2 (next_handle s1) W2 Hq F2) as (W3 & Q3 & B3 & F3).
    split; [exact W3|]. split; [congruence|]. split; [|exact F3].
    rewrite B3, B2, Q1. cbn [map snd List.concat]. now rewrite app_assoc.
Qed.

(** A burst: the first increment, then the others, each within the quiet
    period of the one before. *)
Lemma burst_accumulates t1 rest s :
  wf s -> within_quiet_period rest = true ->
  let s' := exec (burst t1 rest) s in
  wf s' /\ queue (ttsQueue s') = queue (ttsQueue s) /\
  buffer (ttsQueue s') = buffer (ttsQueue s) ++ burst_text t1 rest /\
  exists h, pending_flushes s' = [mkTimer h (now s' + 200) CbFlush].
Proof.
  intros W Hq. cbv zeta. unfold burst.
  rewrite (exec_bind _ _ s tt (add_returns t1 s)).
  destruct (add_arms t1 s W) as (W1 & Q1 & B1 & F1 & N1).
  set (s1 := exec (add t1) s) in *. rewrite <- N1 in F1.
  destruct (add_within_accumulates rest s1 (next_handle s) W1 Hq F1)
    as (W2 & Q2 & B2 & F2).
  split; [exact W2|]. split; [congruence|]. split; [|exact F2].
  rewrite B2, B1. unfold burst_text. now rewrite app_assoc.
Qed.

(** The flush timer is due: it runs among the callbacks, once. *)
Lemma run_due_fires_flush n : forall s h T,
  wf s -> List.length (timers s) <= n ->
  pending_flushes s = [mkTimer h T CbFlush] -> T <= now s ->
  let s' := exec (run_due n) s in
  ttsQueue s' = flushed (ttsQueue s) /\ pending_flushes s' = [] /\ wf s'.
Proof.
  induction n as [|n IH]; intros s h T W Hn Hf HT; cbv zeta.
  - destruct (armed_timeout s h T W Hf) as [_ Hin].
    destruct (timers s); [contradiction | simpl in Hn; lia].
  - destruct (armed_timeout s h T W Hf) as [Ht Hin].
    rewrite run_due_S.
    destruct (earliest_due (now s) (timers s)) as [x|] eqn:E;
      [|exfalso; now apply (earliest_due_Some (now s) (timers s) _ Hin HT)].
    apply earliest_due_In in E as [Hx Hd].
    destruct (is_flush x) eqn:Fx.
    + assert (In x (pending_flushes s)) as K by (apply filter_In; split; assumption).
      rewrite Hf in K. destruct K as [<-|[]]. cbn [callback handle fire].
      set (s1 := exec flush (exec (clearTimeout h) s)).
      assert (wf s1) as W1 by (apply (wf_fired s (mkTimer h T CbFlush) W)).
      assert (ttsQueue s1 = flushed (ttsQueue s)) as Q1.
      { unfold s1, exec. rewrite flush_eq. destruct s; reflexivity. }
      assert (pending_flushes s1 = []) as F1.
      { unfold pending_flushes. apply no_flush_pending with (nh := next_handle s1).
        unfold wf in W1. rewrite Q1 in W1. exact W1. }
      destruct (run_due_keeps_queue n s1 W1) as (W2 & Q2 & _ & _ & F2).
      { intros t Hin1 Ft.
        assert (In t (pending_flushes s1)) as K by (apply filter_In; split; assumption).
        rewrite F1 in K. contradiction. }
      split; [congruence|]. split; [congruence | exact W2].
    + destruct (fired_restart s x W Hx (not_flush_restart x Fx))
        as (W1 & Q1 & N1 & _ & F1 & L1).
      set (s1 := exec (fire (callback x)) (exec (clearTimeout (handle x)) s)) in *.
      destruct (IH s1 h T W1) as (Q2 & F2 & W2); try congruence; try lia.
      split; [congruence|]. split; assumption.
Qed.

Lemma flushed_blank q : blank (buffer (flushed q)) = true.
Proof.
  unfold flushed. cbn [buffer].
  destruct (truthy (trim (buffer q))) eqn:E; [reflexivity|].
  rewrite truthy_trim in E. now apply negb_false_iff in E.
Qed.

(** C5 (amended).  The buffer holding at most whitespace (as it does after
    every flush), a burst of increments, each within 200 ms of the one
    before, emits nothing while it lasts.  The flush that ends it, called
    explicitly or by the timer once 200 ms have passed, pushes one phrase,
    the trimmed concatenation of the increments, when that is not empty,
    and no phrase when the concatenation is whitespace only.  No flush
    timer is left pending and the buffer again holds at most whitespace. *)
Theorem burst_emits_its_phrase
    (es : list Event) (t1 : jsstring) (rest : list (nat * jsstring)) (d : nat) :
  let s := run es initial in
  blank (buffer (ttsQueue s)) = true ->
  within_quiet_period rest = true ->
  200 <= d ->
  let s1 := exec (burst t1 rest) s in
  let by_flush := exec flush s1 in
  let by_timer := exec (elapse d) s1 in
  queue (ttsQueue s1) = queue (ttsQueue s) /\
  queue (ttsQueue by_flush)
    = queue (ttsQueue s) ++ phrase_of (burst_text t1 rest) /\
  queue (ttsQueue by_timer)
    = queue (ttsQueue s) ++ phrase_of (burst_text t1 rest) /\
  pending_flushes by_flush = [] /\ pending_flushes by_timer = [] /\
  blank (buffer (ttsQueue by_flush)) = true /\
  blank (buffer (ttsQueue by_timer)) = true.
Proof.
  intros s Hb Hq Hd s1 by_flush by_timer.
  destruct (reachable_invariants es) as (W & _ & _). fold s in W. clearbody s.
  destruct (burst_accumulates t1 rest s W Hq) as (W1 & Q1 & B1 & [h F1]).
  fold s1 in W1, Q1, B1, F1. clearbody s1.
  assert (ttsQueue by_flush = flushed (ttsQueue s1)) as Qf.
  { unfold by_flush, exec. rewrite flush_eq. destruct s1; reflexivity. }
  assert (wf by_flush) as Wf by (apply wf_flush; exact W1).
  assert (ttsQueue by_timer = flushed (ttsQueue s1) /\ pending_flushes by_timer = [])
    as [Qt Ft].
  { unfold by_timer. rewrite elapse_eq.
    set (s0 := with_now (now s1 + d) s1).
    assert (wf s0) as W0 by (destruct s1; exact W1).
    assert (pending_flushes s0 = [mkTimer h (now s1 + 200) CbFlush]) as F0
      by (rewrite <- F1; destruct s1; reflexivity).
    assert (ttsQueue s0 = ttsQueue s1) as Q0 by (destruct s1; reflexivity).
    assert (timers s0 = timers s1) as T0 by (destruct s1; reflexivity).
    destruct (run_due_fires_flush (List.length (timers s1)) s0 h (now s1 + 200) W0)
      as (Q2 & F2 & _); try assumption.
    - rewrite T0. lia.
    - unfold s0. destruct s1; simpl. lia.
    - split; [congruence | exact F2]. }
  assert (phrase_of (buffer (ttsQueue s1)) = phrase_of (burst_text t1 rest)) as P
    by (rewrite B1; now apply phrase_of_blank_prefix).
  split; [exact Q1|].
  split; [rewrite Qf; cbn [flushed queue]; now rewrite P, Q1|].
  split; [rewrite Qt; cbn [flushed queue]; now rewrite P, Q1|].
  split.
  { unfold pending_flushes. apply no_flush_pending with (nh := next_handle by_flush).
    unfold wf in Wf. rewrite Qf in Wf. exact Wf. }
  split; [exact Ft|].
  split; [rewrite Qf | rewrite Qt]; apply flushed_blank.
Qed.

Lemma burst_emits_its_phrase_witness :
  let s := run [ WsOpen 1 (lit "0.4fzyo82mvyr"); WsMessage 1 (chat "Hi") ] initial in
  let s1 := exec (burst (lit " Hello") [(40, lit ", "); (120, lit "world. ")]) s in
  let by_flush := exec flush s1 in
  let by_timer := exec (elapse 200) s1 in
  queue (ttsQueue s1) = queue (ttsQueue s) /\
  queue (ttsQueue by_flush)
    = queue (ttsQueue s)
      ++ phrase_of (burst_text (lit " Hello") [(40, lit ", "); (120, lit "world. ")]) /\
  queue (ttsQueue by_timer)
    = queue (ttsQueue s)
      ++ phrase_of (burst_text (lit " Hello") [(40, lit ", "); (120, lit "world. ")]) /\
  pending_flushes by_flush = [] /\ pending_flushes by_timer = [] /\
  blank (buffer (ttsQueue by_flush)) = true /\
  blank (buffer (ttsQueue by_timer)) = true.
Proof.
  apply (burst_emits_its_phrase
           [ WsOpen 1 (lit "0.4fzyo82mvyr"); WsMessage 1 (chat "Hi") ]
           (lit " Hello") [(40, lit ", "); (120, lit "world. ")] 200).
  - reflexivity.
  - reflexivity.
  - lia.
Defined.

Example burst_phrase :
  phrase_of (burst_text (lit " Hello") [(40, lit ", "); (120, lit "world. ")])
  = [lit "Hello, world."].
Proof. reflexivity. Qed.

(** C5 (as stated, refuted).  The increments [" "] and ["  "] come 50 ms
    apart.  The flush at the end of the stream pushes no phrase, and
    neither does the timer: the queue stays empty. *)
Lemma blank_burst_emits_nothing :
  let s := run blank_reply initial in
  buffer (ttsQueue s) = lit "   " /\
  List.length (pending_flushes s) = 1 /\
  queue (ttsQueue s) = [] /\
  queue (ttsQueue (step s (StreamEnd 0))) = [] /\
  queue (ttsQueue (step s (Elapse 200))) = [].
Proof. vm_compute. repeat split; reflexivity. Qed.

(* ===================================================================== *)
(** * The queue across crashes *)
(* ===================================================================== *)

Lemma restartTTS_keeps_queue s : ttsQueue (exec restartTTS s) = ttsQueue s.
Proof.
  unfold exec. rewrite restartTTS_eq.
  destruct (restarts s <? 5)%Z; [destruct s; reflexivity|].
  rewrite broadcast_eq. destruct s; reflexivity.
Qed.

(** One iteration of the feed loop, the worker's pipe taking writes. *)
Lemma feed_step s pid pipe :
  ttsProcess s = Some (mkProc pid (Some pipe)) ->
  existsb (Nat.eqb pipe) (broken s) = false ->
  let s' := step s FeedTick in
  ttsProcess s' = ttsProcess s /\ broken s' = broken s /\
  queue (ttsQueue s') = tl (queue (ttsQueue s)) /\
  written s' = written s ++ lines pipe (firstn 1 (queue (ttsQueue s))).
Proof.
  intros Hp Hb. cbv zeta.
  destruct s as [[q b t] ? ? ? ? ? ? ? ? ? ? ? ? ? ? ?]. proj. subst.
  unfold lines. destruct q as [|ph q].
  - simpl. rewrite app_nil_r. repeat split.
  - open_handler; proj.
    cbn [firstn filter map tl]. destruct (truthy ph); proj; cbn [map];
      rewrite ?Hb, ?app_nil_r; proj; repeat split.
Qed.

Lemma feed_drains n : forall s pid pipe,
  ttsProcess s = Some (mkProc pid (Some pipe)) ->
  existsb (Nat.eqb pipe) (broken s) = false ->
  let s' := run (repeat FeedTick n) s in
  queue (ttsQueue s') = skipn n (queue (ttsQueue s)) /\
  written s' = written s ++ lines pipe (firstn n (queue (ttsQueue s))).
Proof.
  induction n as [|n IH]; intros s pid pipe Hp Hb; cbv zeta.
  - simpl. unfold lines. simpl. now rewrite app_nil_r.
  - cbn [repeat run fold_left].
    destruct (feed_step s pid pipe Hp Hb) as (Ep & Eb & Eq & Ew).
    set (s1 := step s FeedTick) in *.
    destruct (IH s1 pid pipe) as (Q & Wr); [congruence | congruence |].
    fold (run (repeat FeedTick n) s1). rewrite Q, Wr, Eq, Ew.
    unfold lines. destruct (queue (ttsQueue s)) as [|ph q].
    + simpl. rewrite skipn_nil, firstn_nil. now rewrite app_nil_r.
    + cbn [tl skipn firstn]. split; [reflexivity|].
      rewrite <- app_assoc, <- map_app. f_equal. f_equal.
      cbn [filter]. destruct (truthy ph); reflexivity.
Qed.

(** One iteration of the feed loop, whatever the pipe does: the head
    phrase leaves the queue; it is written when the pipe takes the write,
    and is not put back when the write throws. *)
Lemma feed_once s pid pipe :
  ttsProcess s = Some (mkProc pid (Some pipe)) ->
  let s' := step s FeedTick in
  ttsProcess s' = ttsProcess s /\ broken s' = broken s /\
  queue (ttsQueue s') = tl (queue (ttsQueue s)) /\
  written s' = written s ++
    (if existsb (Nat.eqb pipe) (broken s) then []
     else lines pipe (firstn 1 (queue (ttsQueue s)))).
Proof.
  intros Hp. cbv zeta.
  destruct (existsb (Nat.eqb pipe) (broken s)) eqn:Hb;
    [|now apply feed_step with (pid := pid)].
  destruct s as [[q b t] ? ? ? ? ? ? ? ? ? ? ? ? ? ? ?]. proj. subst.
  destruct q as [|ph q].
  - simpl. rewrite app_nil_r. repeat split.
  - handler_cases; rewrite ?app_nil_r; try discriminate; repeat split.
Qed.

Lemma feed_many n : forall s pid pipe,
  ttsProcess s = Some (mkProc pid (Some pipe)) ->
  let s' := run (repeat FeedTick n) s in
  queue (ttsQueue s') = skipn n (queue (ttsQueue s)) /\
  written s' = written s ++
    (if existsb (Nat.eqb pipe) (broken s) then []
     else lines pipe (firstn n (queue (ttsQueue s)))).
Proof.
  intros s pid pipe Hp. cbv zeta.
  destruct (existsb (Nat.eqb pipe) (broken s)) eqn:Hb;
    [|now apply feed_drains with (pid := pid)].
  revert s Hp Hb. induction n as [|n IH]; intros s Hp Hb.
  - simpl. now rewrite app_nil_r.
  - cbn [repeat run fold_left].
    destruct (feed_once s pid pipe Hp) as (Ep & Eb & Eq & Ew). rewrite Hb in Ew.
    set (s1 := step s FeedTick) in *. fold (run (repeat FeedTick n) s1).
    destruct (IH s1) as (Q & Wr); [congruence | congruence |].
    rewrite Q, Wr, Eq, Ew, !app_nil_r.
    destruct (queue (ttsQueue s)) as [|ph q]; [now rewrite skipn_nil | now split].
Qed.

(** Without a worker handle that has a pipe, the feed loop does nothing. *)
Lemma feed_idle s :
  match ttsProcess s with Some (mkProc _ (Some _)) => False | _ => True end ->
  step s FeedTick = s.
Proof.
  intros H. destruct s as [[q b t] ? ? ? ? ? ? ? ? ? ? ? ? ? ? ?]. proj.
  destruct ttsProcess0 as [[pid [pipe|]]|]; try contradiction;
    destruct q; reflexivity.
Qed.

Lemma feed_idle_run n s :
  match ttsProcess s with Some (mkProc _ (Some _)) => False | _ => True end ->
  run (repeat FeedTick n) s = s.
Proof.
  intros H. induction n as [|n IH]; [reflexivity|].
  cbn [repeat run fold_left]. now rewrite (feed_idle s H).
Qed.

(** No timer callback takes a phrase off the queue. *)
Lemma fired_extends_queue s x :
  exists l,
    queue (ttsQueue (exec (fire (callback x)) (exec (clearTimeout (handle x)) s)))
    = queue (ttsQueue s) ++ l.
Proof.
  destruct s as [[q b t] ? ? ? ? ? ? ? ? ? ? ? ? ? ? ?].
  unfold exec, clearTimeout, modify; proj.
  destruct (callback x); cbn [fire].
  - rewrite flush_eq; proj. eexists. reflexivity.
  - unfold startTTS, spawn, bind, modify; proj. exists []. now rewrite app_nil_r.
Qed.

(** What each event does to the queued phrases. *)
Lemma queue_kept s e :
  match e with
  | FeedTick =>
      queue (ttsQueue (step s e))
      = match ttsProcess s with
        | Some (mkProc _ (Some _)) => tl (queue (ttsQueue s))
        | _ => queue (ttsQueue s)
        end
  | WsMessage _ msg =>
      queue (ttsQueue (step s e)) = if valid msg then [] else queue (ttsQueue s)
  | _ => exists l, queue (ttsQueue (step s e)) = queue (ttsQueue s) ++ l
  end.
Proof.
  destruct e;
  try (destruct s as [[q b t] ? ? ? ? ? ? ? ? ? ? ? ? ? ? ?];
       handler_cases; unfold phrase_of;
       first [ exists []; now rewrite app_nil_r | eexists; reflexivity ]).
  - (* WsMessage *)
    destruct s as [[q b t] ? ? ? ? ? ? ? ? ? ? ? ? ? ? ?].
    destruct msg as [| |ty pr]; cbn [valid]; handler_cases; reflexivity.
  - (* Elapse *)
    unfold step, dispatch. rewrite elapse_eq.
    apply run_due_invariant
      with (P := fun s' => exists l, queue (ttsQueue s') = queue (ttsQueue s) ++ l).
    + intros s1 x [l Hl] _ _. destruct (fired_extends_queue s1 x) as [l' Hl'].
      exists (l ++ l'). now rewrite Hl', Hl, app_assoc.
    + exists []. destruct s; simpl. now rewrite app_nil_r.
Qed.

(** C3 (amended).  A crash or a restart of the worker leaves the queue
    object as it is: the [error] and [exit] listeners, [restartTTS] and the
    callback that spawns the new worker do not touch the FIFO or the
    buffer.  Phrases leave the queue by the feed loop only, and by the
    discard of a new valid request, which empties it: every other event
    keeps the queued phrases in place and at most adds some at the end.
    Each iteration of the feed loop takes the first phrase; [n] iterations
    take the first [n] in order, and write each of them once, followed by
    a newline, to the pipe of the worker handle if that pipe takes
    writes; on a pipe that throws they are written nowhere and are not
    put back. *)
Theorem crash_keeps_queue
    (s : State) (e : Event) (p n : nat) (code : option Z) :
  ttsQueue (step s (ProcError p)) = ttsQueue s /\
  ttsQueue (step s (ProcExit p code)) = ttsQueue s /\
  ttsQueue (exec restartTTS s) = ttsQueue s /\
  ttsQueue (exec (fire CbRestart) s) = ttsQueue s /\
  match e with
  | FeedTick =>
      queue (ttsQueue (step s e))
      = match ttsProcess s with
        | Some (mkProc _ (Some _)) => tl (queue (ttsQueue s))
        | _ => queue (ttsQueue s)
        end
  | WsMessage _ msg =>
      queue (ttsQueue (step s e)) = if valid msg then [] else queue (ttsQueue s)
  | _ => exists l, queue (ttsQueue (step s e)) = queue (ttsQueue s) ++ l
  end /\
  let s' := run (repeat FeedTick n) s in
  match ttsProcess s with
  | Some (mkProc _ (Some pipe)) =>
      queue (ttsQueue s') = skipn n (queue (ttsQueue s)) /\
      written s' = written s ++
        (if existsb (Nat.eqb pipe) (broken s) then []
         else lines pipe (firstn n (queue (ttsQueue s))))
  | _ => s' = s
  end.
Proof.
  split; [|split; [|split; [|split; [|split]]]].
  - unfold step, dispatch, listening, on_error.
    unfold exec, bind, gets. destruct (p <? next_pid s); [|reflexivity].
    apply restartTTS_keeps_queue.
  - unfold step, dispatch, listening, on_exit.
    unfold exec, bind, gets. destruct (p <? next_pid s); [|reflexivity].
    destruct code as [c|]; [|reflexivity].
    destruct (c =? 0)%Z; [reflexivity|]. apply restartTTS_keeps_queue.
  - apply restartTTS_keeps_queue.
  - destruct s; reflexivity.
  - apply queue_kept.
  - cbv zeta. destruct (ttsProcess s) as [[pid [pipe|]]|] eqn:Hp.
    + now apply feed_many with (pid := pid).
    + apply feed_idle_run. now rewrite Hp.
    + apply feed_idle_run. now rewrite Hp.
Qed.

(** C3 (as stated, refuted).  The phrase ["Hello"] is in the FIFO when the
    worker's pipe breaks.  The feed loop dequeues it, the write throws and
    a restart is scheduled; the phrase is not put back.  The new worker is
    spawned a second later and is written nothing: the queue is empty and
    no line was ever written.  Likewise, when the worker exits with code 1
    and the feed loop runs before the restart, the phrase is written to
    the pipe of the exited worker and the new worker is written nothing. *)
Lemma queued_phrase_lost_on_crash :
  queue (ttsQueue (run hello_queued initial)) = [lit "Hello"] /\
  (let s := run crash_on_write initial in
   ttsProcess s = Some (mkProc 1 (Some 1)) /\
   queue (ttsQueue s) = [] /\ written s = []) /\
  (let s := run crash_then_feed initial in
   ttsProcess s = Some (mkProc 1 (Some 1)) /\
   queue (ttsQueue s) = [] /\ written s = [(0, lit "Hello" ++ newline)]).
Proof. vm_compute. repeat split; reflexivity. Qed.

(* ===================================================================== *)
(** * A new request *)
(* ===================================================================== *)

Lemma alike_refl s : alike s s.
Proof. split; [destruct s as [[q b t] ? ? ? ? ? ? ? ? ? ? ? ? ? ? ?]; reflexivity | reflexivity]. Qed.

Lemma alike_intro s b1 b2 :
  trimStart b1 = trimStart b2 -> alike (with_buffer b1 s) (with_buffer b2 s).
Proof.
  intros H. destruct s as [[q b t] ? ? ? ? ? ? ? ? ? ? ? ? ? ? ?].
  split; [reflexivity | exact H].
Qed.

Lemma alike_elim s1 s2 :
  alike s1 s2 ->
  exists s b1 b2, s1 = with_buffer b1 s /\ s2 = with_buffer b2 s /\
                  trimStart b1 = trimStart b2.
Proof.
  intros [E H]. exists s1, (buffer (ttsQueue s1)), (buffer (ttsQueue s2)).
  split; [|split; assumption].
  destruct s1 as [[q b t] ? ? ? ? ? ? ? ? ? ? ? ? ? ? ?]; reflexivity.
Qed.

Lemma alike_flush s1 s2 : alike s1 s2 -> alike (exec flush s1) (exec flush s2).
Proof.
  intros H. apply alike_elim in H as (s & b1 & b2 & -> & -> & H).
  pose proof (trim_congr b1 b2 H) as Ht.
  destruct s as [[q b t] ? ? ? ? ? ? ? ? ? ? ? ? ? ? ?].
  unfold exec, alike, with_buffer. rewrite !flush_eq. proj.
  unfold with_ttsQueue, with_timers, flushed, set_buffer, phrase_of. proj. rewrite Ht.
  destruct (truthy (trim b2)); (split; [reflexivity | first [exact H | reflexivity]]).
Qed.

Lemma alike_fired s1 s2 x :
  alike s1 s2 ->
  alike (exec (fire (callback x)) (exec (clearTimeout (handle x)) s1))
        (exec (fire (callback x)) (exec (clearTimeout (handle x)) s2)).
Proof.
  intros H.
  assert (alike (exec (clearTimeout (handle x)) s1) (exec (clearTimeout (handle x)) s2)) as H1.
  { apply alike_elim in H as (s & b1 & b2 & -> & -> & H).
    destruct s as [[q b t] ? ? ? ? ? ? ? ? ? ? ? ? ? ? ?].
    split; [reflexivity | exact H]. }
  destruct (callback x); cbn [fire]; [now apply alike_flush|].
  apply alike_elim in H1 as (s & b1 & b2 & -> & -> & H1).
  destruct s as [[q b t] ? ? ? ? ? ? ? ? ? ? ? ? ? ? ?].
  split; [reflexivity | exact H1].
Qed.

Lemma alike_timers s1 s2 :
  alike s1 s2 -> timers s2 = timers s1 /\ now s2 = now s1.
Proof. intros [E _]. rewrite E. destruct s1; split; reflexivity. Qed.

Lemma alike_run_due n : forall s1 s2,
  alike s1 s2 -> alike (exec (run_due n) s1) (exec (run_due n) s2).
Proof.
  induction n as [|n IH]; intros s1 s2 H; [exact H|].
  rewrite !run_due_S. destruct (alike_timers s1 s2 H) as [-> ->].
  destruct (earliest_due (now s1) (timers s1)) as [x|]; [|exact H].
  apply IH. now apply alike_fired.
Qed.

Lemma alike_step s1 s2 e : alike s1 s2 -> alike (step s1 e) (step s2 e).
Proof.
  intros H0. pose proof H0 as H.
  apply alike_elim in H as (s & b1 & b2 & -> & -> & H).
  pose proof (trim_congr b1 b2 H) as Ht.
  destruct e;
  try (destruct s as [[q b t] ? ? ? ? ? ? ? ? ? ? ? ? ? ? ?];
       unfold with_buffer; proj;
       open_handler; proj;
       repeat (first [closed_forms | split_match]; proj);
       unfold alike, with_buffer, flushed, phrase_of; proj; rewrite ?Ht;
       destruct (truthy (trim b2));
       (split; [reflexivity | proj; rewrite ?trimStart_app, ?H; first [exact H | reflexivity]]);
       fail).
  unfold step, dispatch. rewrite !elapse_eq.
  destruct (alike_timers _ _ H0) as [-> _].
  apply alike_run_due.
  destruct s as [[q b t] ? ? ? ? ? ? ? ? ? ? ? ? ? ? ?].
  split; [reflexivity | exact H].
Qed.

Lemma alike_run es : forall s1 s2, alike s1 s2 -> alike (run es s1) (run es s2).
Proof.
  induction es as [|e es IH]; intros s1 s2 H; [exact H|].
  simpl. apply IH. now apply alike_step.
Qed.

(** What alike states show: everything but the whitespace held back. *)
Lemma alike_observations s1 s2 :
  alike s1 s2 ->
  written s2 = written s1 /\ sent s2 = sent s1 /\
  queue (ttsQueue s2) = queue (ttsQueue s1) /\
  trim (buffer (ttsQueue s2)) = trim (buffer (ttsQueue s1)).
Proof.
  intros [E H]. split; [|split; [|split]].
  - rewrite E. destruct s1; reflexivity.
  - rewrite E. destruct s1; reflexivity.
  - rewrite E. destruct s1; reflexivity.
  - symmetry. now apply trim_congr.
Qed.

(** C6.  A valid chat request clears the aggregator before anything else:
    when its handler suspends, the queue is empty, no flush timer is held
    and the buffer holds at most whitespace, which no phrase will show.
    Whatever text was buffered and whatever phrases were queued when the
    request came, everything written to the worker and sent to clients
    from then on, under any later events, is what it would have been had
    the aggregator been empty. *)
Theorem new_request_discards
    (s : State) (q : list jsstring) (b : jsstring)
    (w : socket) (ty pr : JsVal) (es : list Event) :
  is_chat ty && val_truthy pr = true ->
  let request := WsMessage w (JsonValue ty pr) in
  let s1 := step (holding q b s) request in
  let s0 := step (holding [] [] s) request in
  queue (ttsQueue s1) = [] /\
  blank (buffer (ttsQueue s1)) = true /\
  timeout (ttsQueue s1) = None /\
  written (run es s1) = written (run es s0) /\
  sent (run es s1) = sent (run es s0) /\
  queue (ttsQueue (run es s1)) = queue (ttsQueue (run es s0)).
Proof.
  intros Hv request s1 s0.
  assert (ttsQueue s1 = set_queue [] (flushed (mkQueue q b (timeout (ttsQueue s)))))
    as Q1.
  { unfold s1, request, step, exec, dispatch, message, try_catch, bind.
    rewrite Hv, clear_eq. destruct s as [[q' b' t] ? ? ? ? ? ? ? ? ? ? ? ? ? ? ?].
    reflexivity. }
  assert (blank (buffer (ttsQueue s1)) = true) as B1.
  { rewrite Q1. apply (flushed_blank (mkQueue q b (timeout (ttsQueue s)))). }
  assert (alike s0 s1) as A.
  { split.
    - unfold s0, s1, request, step, exec, dispatch, message, try_catch, bind.
      rewrite Hv, !clear_eq. destruct s as [[q' b' t] ? ? ? ? ? ? ? ? ? ? ? ? ? ? ?].
      reflexivity.
    - rewrite (trimStart_blank _ B1).
      unfold s0, request, step, exec, dispatch, message, try_catch, bind.
      rewrite Hv, clear_eq. destruct s as [[q' b' t] ? ? ? ? ? ? ? ? ? ? ? ? ? ? ?].
      reflexivity. }
  destruct (alike_observations _ _ (alike_run es s0 s1 A)) as (Ew & Es & Eq & _).
  split; [now rewrite Q1|]. split; [exact B1|]. split; [now rewrite Q1|].
  auto.
Qed.

Lemma new_request_discards_witness :
  let s := run hello_queued initial in
  let request := WsMessage 1 (chat "Next") in
  let es := [StreamText 1 (lit "Bye"); StreamEnd 1; FeedTick; FeedTick] in
  let s1 := step (holding [lit "Hello"; lit "stale"] (lit "unflushed ") s) request in
  let s0 := step (holding [] [] s) request in
  queue (ttsQueue s1) = [] /\
  blank (buffer (ttsQueue s1)) = true /\
  timeout (ttsQueue s1) = None /\
  written (run es s1) = written (run es s0) /\
  sent (run es s1) = sent (run es s0) /\
  queue (ttsQueue (run es s1)) = queue (ttsQueue (run es s0)).
Proof.
  apply (new_request_discards (run hello_queued initial)
           [lit "Hello"; lit "stale"] (lit "unflushed ") 1
           (JString (lit "chat")) (JString (lit "Next"))
           [StreamText 1 (lit "Bye"); StreamEnd 1; FeedTick; FeedTick]).
  reflexivity.
Defined.

Example new_request_writes_only_its_text :
  written (run [StreamText 1 (lit "Bye"); StreamEnd 1; FeedTick; FeedTick]
             (step (holding [lit "Hello"; lit "stale"] (lit "unflushed ")
                      (run hello_queued initial))
                   (WsMessage 1 (chat "Next"))))
  = [(0, lit "Bye" ++ newline)].
Proof. reflexivity. Qed.

(* ===================================================================== *)
(** * Time passing *)
(* ===================================================================== *)

Lemma fired_shrinks s x :
  In x (timers s) ->
  List.length (timers (exec (fire (callback x)) (exec (clearTimeout (handle x)) s)))
  < List.length (timers s).
Proof.
  intros Hin.
  assert (List.length (timers (exec (clearTimeout (handle x)) s))
          < List.length (timers s)) as L.
  { destruct s. unfold exec, clearTimeout, modify; proj.
    apply filter_shorter with (x := x); [exact Hin|]. now rewrite Nat.eqb_refl. }
  revert L. generalize (exec (clearTimeout (handle x)) s). intros s1 L.
  destruct (callback x); cbn [fire].
  - unfold exec. rewrite flush_eq. destruct s1 as [[q b t] ? ? ? ? ? ? ? ? ? ? ? ? ? ? ?].
    proj. destruct t as [h|]; cbn [without]; [|exact L].
    eapply Nat.le_lt_trans; [apply filter_length_le | exact L].
  - destruct s1; exact L.
Qed.

Lemma run_due_exhausts n : forall s,
  List.length (timers s) <= n ->
  forall t, In t (timers (exec (run_due n) s)) ->
  now (exec (run_due n) s) < due t.
Proof.
  induction n as [|n IH]; intros s Hn t Hin.
  - destruct (timers s) eqn:E; [|simpl in Hn; lia].
    cbn [run_due exec ret snd] in Hin. unfold exec, ret in Hin. simpl in Hin.
    rewrite E in Hin. contradiction.
  - rewrite run_due_S in *.
    destruct (earliest_due (now s) (timers s)) as [x|] eqn:E.
    + apply earliest_due_In in E as [Hx _].
      pose proof (fired_shrinks s x Hx) as L.
      apply IH; [lia | exact Hin].
    + now apply (earliest_due_None (now s) (timers s) E).
Qed.

(** The fuel of [elapse] is enough: when it returns, which it always does,
    no pending timer is due. *)
Lemma elapse_runs_every_due_timer d s :
  fst (elapse d s) = Normal tt /\
  forall t, In t (timers (exec (elapse d) s)) -> now (exec (elapse d) s) < due t.
Proof.
  split; [apply elapse_returns|].
  rewrite elapse_eq. apply run_due_exhausts. destruct s; simpl. lia.
Qed.

(* ===================================================================== *)
(** * Phrases and lines *)
(* ===================================================================== *)

Lemma trimStart_idem s : trimStart (trimStart s) = trimStart s.
Proof.
  pose proof (trimStart_head s) as H.
  destruct (trimStart s) as [|c r]; [reflexivity|]. simpl. now rewrite H.
Qed.

Lemma trimEnd_cons c y :
  isWhiteSpace c = false -> trimEnd (c :: y) = c :: trimEnd y.
Proof.
  intros H. unfold trimEnd. cbn [rev]. rewrite trimStart_app.
  destruct (trimStart (rev y)) as [|a r] eqn:E.
  - simpl. now rewrite H.
  - now rewrite rev_app_distr.
Qed.

Lemma trimEnd_idem s : trimEnd (trimEnd s) = trimEnd s.
Proof. unfold trimEnd. now rewrite rev_involutive, trimStart_idem. Qed.

Lemma trim_idem s : trim (trim s) = trim s.
Proof.
  unfold trim. pose proof (trimStart_head s) as H.
  destruct (trimStart s) as [|c r].
  - reflexivity.
  - rewrite (trimEnd_cons c r H). cbn [trimStart]. rewrite H.
    rewrite <- (trimEnd_cons c r H). apply trimEnd_idem.
Qed.

Lemma clean_trim b : truthy (trim b) = true -> clean (trim b).
Proof.
  intros H. split; [|apply trim_idem].
  intros E. rewrite E in H. discriminate.
Qed.

Lemma clean_truthy ph : clean ph -> truthy ph = true.
Proof. intros [H _]. destruct ph; [contradiction | reflexivity]. Qed.

Lemma line_ok_weaken s s' l :
  next_pid s <= next_pid s' -> line_ok s l -> line_ok s' l.
Proof. intros H [H1 H2]. split; [lia | exact H2]. Qed.

Lemma lines_ok_weaken s s' ls :
  next_pid s <= next_pid s' -> Forall (line_ok s) ls -> Forall (line_ok s') ls.
Proof.
  intros H F. eapply Forall_impl; [|exact F]. intros l. now apply line_ok_weaken.
Qed.

Lemma served_flush s : served s -> served (exec flush s).
Proof.
  intros (Q & [p [Hp Lp]] & W). unfold exec. rewrite flush_eq.
  destruct s as [[q b t] ? ? ? ? ? ? ? ? ? ? ? ? ? ? ?].
  unfold served, handle_ok in *. proj. unfold phrase_of.
  split; [|split; [exists p; auto | exact W]].
  destruct (truthy (trim b)) eqn:E; [|now rewrite app_nil_r].
  apply Forall_app. split; [exact Q|]. constructor; [now apply clean_trim | constructor].
Qed.

Lemma served_fired s x :
  served s -> served (exec (fire (callback x)) (exec (clearTimeout (handle x)) s)).
Proof.
  intros H.
  assert (served (exec (clearTimeout (handle x)) s)) as H1.
  { destruct s as [[q b t] ? ? ? ? ? ? ? ? ? ? ? ? ? ? ?]. exact H. }
  destruct (callback x); cbn [fire]; [now apply served_flush|].
  revert H1. generalize (exec (clearTimeout (handle x)) s). intros s1 (Q & [p [Hp Lp]] & W).
  destruct s1 as [[q b t] ? ? ? ? ? ? ? ? ? ? ? ? ? ? ?].
  unfold served, handle_ok, exec, startTTS, spawn, bind, modify in *. proj.
  split; [exact Q|]. split; [exists next_pid0; split; [reflexivity | lia]|].
  eapply Forall_impl; [|exact W]. intros l [L1 L2]. split; [simpl in *; lia | exact L2].
Qed.

Lemma served_step s e : served s -> served (step s e).
Proof.
  intros H. pose proof H as (Q & [p [Hp Lp]] & W).
  destruct e;
  try (destruct s as [[q b t] ? ? ? ? ? ? ? ? ? ? ? ? ? ? ?];
       unfold served, handle_ok in *; proj;
       handler_cases; unfold phrase_of; proj;
       repeat match goal with
              | |- _ /\ _ => split
              | |- exists _, _ => exists p; split; [assumption | lia]
              | |- Forall _ [] => constructor
              end;
       rewrite ?app_nil_r; try assumption; fail).
  - (* StreamEnd *)
    destruct s as [[q b t] ? ? ? ? ? ? ? ? ? ? ? ? ? ? ?];
    unfold served, handle_ok in *; proj.
    handler_cases; unfold phrase_of; proj;
      (split; [|split; [exists p; split; [assumption | lia] | assumption]]);
      try assumption;
      (destruct (truthy (trim b)) eqn:E; [|now rewrite app_nil_r]);
      (apply Forall_app; split; [assumption|]);
      (constructor; [now apply clean_trim | constructor]).
  - (* FeedTick *)
    destruct s as [[q b t] ? ? ? ? ? ? ? ? ? ? ? ? ? ? ?];
    unfold served, handle_ok in *; proj. subst.
    destruct q as [|ph q].
    + handler_cases. split; [constructor | split; [exists p; auto | assumption]].
    + inversion Q as [|? ? Cph Cq]; subst.
      open_handler; proj. rewrite (clean_truthy ph Cph).
      assert (line_ok_here : forall np, p < np ->
                fst (p, ph ++ newline) < np /\
                exists ph', clean ph' /\ snd (p, ph ++ newline) = ph' ++ newline).
      { intros np L. split; [exact L | exists ph; split; [exact Cph | reflexivity]]. }
      repeat (first [closed_forms | split_match]; proj);
        (split; [exact Cq | split; [exists p; split; [reflexivity | lia]|]]);
        try assumption;
        try (apply Forall_app; split; [assumption|];
             constructor; [now apply line_ok_here | constructor]).
  - (* Elapse *)
    unfold step, dispatch. rewrite elapse_eq.
    apply run_due_invariant.
    + intros s1 x H1 _ _. now apply served_fired.
    + destruct s; exact H.
Qed.

Lemma served_run es : served (run es initial).
Proof.
  induction es as [|e es IH] using rev_ind.
  - split; [constructor|]. split; [exists 0; split; [reflexivity | simpl; lia] | constructor].
  - rewrite run_snoc. now apply served_step.
Qed.

Lemma requests_filter (f : nat * socket -> bool) rs n :
  NoDup (map (@fst nat socket) rs) /\ (forall r, In r rs -> fst r < n) ->
  NoDup (map fst (filter f rs)) /\ (forall r, In r (filter f rs) -> fst r < n).
Proof.
  intros [Hd Hb]. split; [now apply NoDup_map_filter|].
  intros r Hin. apply filter_In in Hin as [Hin _]. auto.
Qed.

Lemma requests_add (rs : list (nat * socket)) n w :
  NoDup (map (@fst nat socket) rs) /\ (forall r, In r rs -> fst r < n) ->
  NoDup (map fst (rs ++ [(n, w)])) /\
  (forall r, In r (rs ++ [(n, w)]) -> fst r < S n).
Proof.
  intros [Hd Hb]. split.
  - rewrite map_app. simpl. apply NoDup_app; auto.
    + constructor; [intros []|constructor].
    + intros a Ha [<-|[]]. apply in_map_iff in Ha as [r [E Hin]].
      specialize (Hb r Hin). lia.
  - intros r Hin. apply in_app_or in Hin as [Hin|[<-|[]]]; simpl;
      [specialize (Hb r Hin)|]; lia.
Qed.

Lemma requests_fired s x :
  requests_ok s ->
  requests_ok (exec (fire (callback x)) (exec (clearTimeout (handle x)) s)).
Proof.
  destruct s as [[q b t] ? ? ? ? ? ? ? ? ? ? ? ? ? ? ?].
  unfold requests_ok, exec, clearTimeout, modify; proj.
  destruct (callback x); cbn [fire].
  - rewrite flush_eq; proj. auto.
  - unfold startTTS, spawn, bind, modify; proj. auto.
Qed.

Lemma requests_step s e : requests_ok s -> requests_ok (step s e).
Proof.
  intros R. destruct e;
  try (destruct s as [[q b t] ? ? ? ? ? ? ? ? ? ? ? ? ? ? ?];
       unfold requests_ok in *;
       handler_cases;
       auto using requests_filter, requests_add; fail).
  unfold step, dispatch. rewrite elapse_eq.
  apply run_due_invariant.
  - intros s1 x R1 _ _. now apply requests_fired.
  - destruct s; exact R.
Qed.

Lemma requests_run es : requests_ok (run es initial).
Proof.
  induction es as [|e es IH] using rev_ind.
  - split; [constructor | intros r []].
  - rewrite run_snoc. now apply requests_step.
Qed.

(** X1.  Whatever happens, the phrases waiting in the queue are not empty
    and carry no whitespace at either end, and every line ever written to
    a worker is such a phrase followed by one newline, written to the pipe
    of a process that was spawned. *)
Theorem worker_lines_are_clean_phrases (es : list Event) :
  let s := run es initial in
  Forall clean (queue (ttsQueue s)) /\
  (forall pipe line, In (pipe, line) (written s) ->
     pipe < next_pid s /\
     exists ph, ph <> [] /\ trim ph = ph /\ line = ph ++ newline).
Proof.
  intros s. destruct (served_run es) as (Q & _ & W). fold s in Q, W.
  split; [exact Q|]. intros pipe line Hin.
  rewrite Forall_forall in W. destruct (W _ Hin) as [L [ph [[C1 C2] E]]].
  split; [exact L|]. exists ph. auto.
Qed.

(** X2.  Once the module is initialised the worker handle is never null
    and always has its pipe, so the guard of the feed loop never holds a
    phrase back: each iteration takes the head phrase off a queue that is
    not empty, whether or not the write succeeds and whatever became of
    the worker. *)
Theorem feed_never_waits (es : list Event) :
  let s := run es initial in
  (exists p, ttsProcess s = Some (mkProc p (Some p))) /\
  queue (ttsQueue (step s FeedTick)) = tl (queue (ttsQueue s)).
Proof.
  intros s. destruct (served_run es) as (Q & [p [Hp Lp]] & _). fold s in Q, Hp, Lp.
  split; [now exists p|]. clearbody s.
  destruct s as [[q b t] ? ? ? ? ? ? ? ? ? ? ? ? ? ? ?]. proj. subst.
  destruct q as [|ph q]; [reflexivity|].
  inversion Q as [|? ? Cph Cq]; subst.
  open_handler; proj. rewrite (clean_truthy ph Cph).
  repeat (first [closed_forms | split_match]; proj); reflexivity.
Qed.

(* ===================================================================== *)
(** * The restart counter *)
(* ===================================================================== *)

Lemma restarts_fired s x :
  restarts (exec (fire (callback x)) (exec (clearTimeout (handle x)) s)) = restarts s.
Proof.
  destruct s as [[q b t] ? ? ? ? ? ? ? ? ? ? ? ? ? ? ?].
  unfold exec, clearTimeout, modify; proj.
  destruct (callback x); cbn [fire].
  - rewrite flush_eq; proj. reflexivity.
  - unfold startTTS, spawn, bind, modify; proj. reflexivity.
Qed.

Lemma restarts_step s e :
  (restarts s <= restarts (step s e) <= restarts s + 1)%Z.
Proof.
  destruct e;
  try (destruct s as [[q b t] ? ? ? ? ? ? ? ? ? ? ? ? ? ? ?];
       handler_cases; lia).
  unfold step, dispatch. rewrite elapse_eq.
  apply run_due_invariant
    with (P := fun s' => (restarts s <= restarts s' <= restarts s + 1)%Z).
  - intros s1 x H _ _. now rewrite restarts_fired.
  - destruct s; simpl; lia.
Qed.

(** X3.  The restart counter is never reset and never decreases: over any
    sequence of events, from any state, it grows by at most one per event. *)
Theorem restart_counter_only_grows (s : State) (es : list Event) :
  (restarts s <= restarts (run es s) <= restarts s + Z.of_nat (List.length es))%Z.
Proof.
  revert s. induction es as [|e es IH]; intros s; [simpl; lia|].
  cbn [run fold_left List.length]. fold (run es (step s e)).
  pose proof (restarts_step s e). specialize (IH (step s e)). lia.
Qed.

(* ===================================================================== *)
(** * Requests that fail *)
(* ===================================================================== *)

(** X4.  A message that is not a valid chat request (the JSON does not
    parse, the value is null, its type is not ["chat"] or its prompt is
    falsy) is answered with one [error] event on the socket it came on,
    and nothing else changes: the aggregator is not cleared, nobody else is
    sent anything, no handler waits.  When even that send throws, nothing
    changes at all. *)
Theorem invalid_request_only_answered (s : State) (w : socket) (msg : Incoming) :
  valid msg = false ->
  step s (WsMessage w msg) =
  if refuses s w then s
  else with_sent (sent s ++ [(w, Text (MsgError (rejection msg)))]) s.
Proof.
  intros H. unfold refuses.
  destruct s as [[q b t] ? ? ? ? ? ? ? ? ? ? ? ? ? ? ?].
  destruct msg as [| |ty pr]; cbn [valid rejection] in *;
    open_handler; proj; rewrite ?H;
    destruct (existsb (Nat.eqb w) closed0) eqn:E; proj; rewrite ?E; proj; rewrite ?E;
    reflexivity.
Qed.

Lemma invalid_request_only_answered_witness :
  step (run hello_queued initial)
       (WsMessage 1 (JsonValue (JString (lit "chat")) (JString [])))
  = if refuses (run hello_queued initial) 1 then run hello_queued initial
    else with_sent
           (sent (run hello_queued initial)
              ++ [(1, Text (MsgError
                     (rejection (JsonValue (JString (lit "chat")) (JString [])))))])
           (run hello_queued initial).
Proof.
  apply (invalid_request_only_answered (run hello_queued initial) 1
           (JsonValue (JString (lit "chat")) (JString []))).
  reflexivity.
Defined.

Lemma find_filter_gone (rid : nat) (rs : list (nat * socket)) :
  find (fun r => fst r =? rid) (filter (fun r => negb (fst r =? rid)) rs) = None.
Proof.
  induction rs as [|r rs IH]; simpl; [reflexivity|].
  destruct (fst r =? rid) eqn:E; simpl; [exact IH|]. now rewrite E.
Qed.

(** With no handler waiting for [rid], its stream events do nothing. *)
Lemma stream_event_ignored s rid e :
  waiting s rid = None -> of_request rid e = true -> step s e = s.
Proof.
  unfold waiting. intros H He.
  destruct e; try discriminate He; simpl in He; apply Nat.eqb_eq in He; subst;
    unfold step, exec, dispatch, on_text, on_end, on_fail, resume, bind, gets;
    rewrite H; reflexivity.
Qed.

Lemma stream_events_ignored es : forall s rid,
  waiting s rid = None -> forallb (of_request rid) es = true -> run es s = s.
Proof.
  induction es as [|e es IH]; intros s rid H He; [reflexivity|].
  simpl in He. apply andb_prop in He as [He Hes]. cbn [run fold_left].
  rewrite (stream_event_ignored s rid e H He). now apply IH with (rid := rid).
Qed.

(** X5.  When sending a text increment to the requester throws, the
    increment is not given to the aggregator and the handler ends: nothing
    was sent, and whatever the upstream generation yields afterwards for
    that request (more text, its end, a failure) changes nothing. *)
Theorem failed_send_ends_request
    (s : State) (rid : nat) (w : socket) (text : jsstring) (es : list Event) :
  waiting s rid = Some (rid, w) ->
  refuses s w = true ->
  forallb (of_request rid) es = true ->
  let s1 := step s (StreamText rid text) in
  ttsQueue s1 = ttsQueue s /\ timers s1 = timers s /\ sent s1 = sent s /\
  waiting s1 rid = None /\
  run es s1 = s1.
Proof.
  intros Hr Hw He s1. unfold waiting, refuses in Hr, Hw.
  assert (s1 = with_requests (filter (fun r => negb (fst r =? rid)) (requests s)) s) as E.
  { unfold s1. destruct s as [[q b t] ? ? ? ? ? ? ? ? ? ? ? ? ? ? ?].
    open_handler; proj. rewrite Hr. proj. rewrite Hw. proj. rewrite Hw. reflexivity. }
  assert (waiting s1 rid = None) as G.
  { rewrite E. unfold waiting. destruct s. proj. apply find_filter_gone. }
  split; [rewrite E; destruct s; reflexivity|].
  split; [rewrite E; destruct s; reflexivity|].
  split; [rewrite E; destruct s; reflexivity|].
  split; [exact G|]. now apply stream_events_ignored with (rid := rid).
Qed.

Lemma failed_send_ends_request_witness :
  let s := run [ WsOpen 1 (lit "0.4fzyo82mvyr"); WsMessage 1 (chat "Hi");
                 StreamText 0 (lit "Hel"); SocketDies 1 ] initial in
  let es := [ StreamText 0 (lit "lo"); StreamEnd 0 ] in
  let s1 := step s (StreamText 0 (lit "lo ")) in
  ttsQueue s1 = ttsQueue s /\ timers s1 = timers s /\ sent s1 = sent s /\
  waiting s1 0 = None /\
  run es s1 = s1.
Proof.
  apply (failed_send_ends_request
           (run [ WsOpen 1 (lit "0.4fzyo82mvyr"); WsMessage 1 (chat "Hi");
                  StreamText 0 (lit "Hel"); SocketDies 1 ] initial)
           0 1 (lit "lo ") [ StreamText 0 (lit "lo"); StreamEnd 0 ]); reflexivity.
Defined.

(** An increment that reaches the requester: sent, then added. *)
Lemma stream_text_adds s rid w text :
  waiting s rid = Some (rid, w) -> refuses s w = false ->
  step s (StreamText rid text)
  = exec (add text) (with_sent (sent s ++ [(w, Text (MsgTextChunk text))]) s).
Proof.
  unfold waiting, refuses. intros Hr Hw.
  destruct s as [[q b t] ? ? ? ? ? ? ? ? ? ? ? ? ? ? ?]. proj.
  unfold step, exec, dispatch, on_text, resume, bind, gets. proj. rewrite Hr.
  unfold try_catch, bind, ws_send. proj. rewrite Hw.
  now destruct (add text _) as [[[]|] s'] eqn:E; rewrite add_eq in E; inversion E.
Qed.

(** The upstream failure: the handler's [catch]. *)
Lemma stream_fail_answers s rid w :
  waiting s rid = Some (rid, w) -> refuses s w = false ->
  step s (StreamFail rid)
  = with_sent (sent s ++ [(w, Text (MsgError failed_to_process))])
      (with_requests (filter (fun r => negb (fst r =? rid)) (requests s)) s).
Proof.
  unfold waiting, refuses. intros Hr Hw.
  destruct s as [[q b t] ? ? ? ? ? ? ? ? ? ? ? ? ? ? ?]. proj.
  unfold step, exec, dispatch, on_fail, resume, finish, bind, gets, modify. proj.
  rewrite Hr. unfold ws_send. proj. now rewrite Hw.
Qed.

(** X6.  When the upstream generation fails after an increment was
    received, the requester is sent the increment and then one [error]
    event, the handler ends, and the text stays in the aggregator with its
    timer armed: once the quiet period has passed it is flushed and queued
    for the worker like any other phrase. *)
Theorem upstream_failure_keeps_text
    (es : list Event) (rid : nat) (w : socket) (text : jsstring) (d : nat) :
  let s := run es initial in
  waiting s rid = Some (rid, w) ->
  refuses s w = false ->
  200 <= d ->
  let s1 := run [StreamText rid text; StreamFail rid] s in
  sent s1 = sent s ++ [ (w, Text (MsgTextChunk text));
                        (w, Text (MsgError failed_to_process)) ] /\
  waiting s1 rid = None /\
  queue (ttsQueue s1) = queue (ttsQueue s) /\
  queue (ttsQueue (step s1 (Elapse d)))
    = queue (ttsQueue s) ++ phrase_of (buffer (ttsQueue s) ++ text).
Proof.
  intros s Hr Hw Hd s1.
  destruct (reachable_invariants es) as (W & _ & _). fold s in W. clearbody s.
  set (s0 := with_sent (sent s ++ [(w, Text (MsgTextChunk text))]) s).
  assert (wf s0) as W0 by (destruct s; exact W).
  destruct (add_arms text s0 W0) as (WA & QA & BA & FA & NA).
  set (sA := exec (add text) s0) in *.
  assert (step s (StreamText rid text) = sA) as E1 by (now apply stream_text_adds).
  assert (waiting sA rid = Some (rid, w)) as HrA.
  { unfold sA, exec. rewrite add_eq. unfold s0, waiting in *. destruct s; exact Hr. }
  assert (refuses sA w = false) as HwA.
  { unfold sA, exec. rewrite add_eq. unfold s0, refuses in *. destruct s; exact Hw. }
  assert (sent sA = sent s ++ [(w, Text (MsgTextChunk text))]) as SA.
  { unfold sA, exec. rewrite add_eq. unfold s0. destruct s; reflexivity. }
  assert (s1 = with_sent (sent sA ++ [(w, Text (MsgError failed_to_process))])
                 (with_requests (filter (fun r => negb (fst r =? rid)) (requests sA)) sA))
    as E2.
  { unfold s1. cbn [run fold_left]. rewrite E1. now apply stream_fail_answers. }
  clearbody sA s1. subst s1.
  split; [destruct sA; proj; rewrite SA, <- app_assoc; reflexivity|].
  split; [unfold waiting; destruct sA; proj; apply find_filter_gone|].
  split.
  { transitivity (queue (ttsQueue sA)); [destruct sA; reflexivity|].
    rewrite QA. unfold s0. destruct s; reflexivity. }
  set (s1 := with_sent _ _).
  assert (wf s1) as W1 by (unfold s1; destruct sA; exact WA).
  assert (pending_flushes s1 = [mkTimer (next_handle s0) (now s0 + 200) CbFlush]) as F1
    by (rewrite <- FA; unfold s1; destruct sA; reflexivity).
  assert (now s1 = now s0) as N1 by (rewrite <- NA; unfold s1; destruct sA; reflexivity).
  assert (ttsQueue s1 = ttsQueue sA) as Q1 by (unfold s1; destruct sA; reflexivity).
  unfold step, dispatch. rewrite elapse_eq.
  set (s2 := with_now (now s1 + d) s1).
  assert (wf s2) as W2 by (unfold s2; destruct s1; exact W1).
  assert (pending_flushes s2 = pending_flushes s1) as F2
    by (unfold s2; destruct s1; reflexivity).
  assert (ttsQueue s2 = ttsQueue s1) as Q2 by (unfold s2; destruct s1; reflexivity).
  assert (timers s2 = timers s1) as T2 by (unfold s2; destruct s1; reflexivity).
  assert (now s2 = now s1 + d) as N2 by (unfold s2; destruct s1; reflexivity).
  destruct (run_due_fires_flush (List.length (timers s1)) s2
              (next_handle s0) (now s0 + 200) W2) as (Q3 & _ & _).
  - rewrite T2. lia.
  - now rewrite F2.
  - lia.
  - rewrite Q3, Q2, Q1. cbn [flushed queue]. rewrite QA, BA.
    unfold s0. destruct s; reflexivity.
Qed.

Lemma upstream_failure_keeps_text_witness :
  let s := run [ WsOpen 1 (lit "0.4fzyo82mvyr"); WsMessage 1 (chat "Hi") ] initial in
  let s1 := run [StreamText 0 (lit "Hello wor"); StreamFail 0] s in
  sent s1 = sent s ++ [ (1, Text (MsgTextChunk (lit "Hello wor")));
                        (1, Text (MsgError failed_to_process)) ] /\
  waiting s1 0 = None /\
  queue (ttsQueue s1) = queue (ttsQueue s) /\
  queue (ttsQueue (step s1 (Elapse 200)))
    = queue (ttsQueue s) ++ phrase_of (buffer (ttsQueue s) ++ lit "Hello wor").
Proof.
  apply (upstream_failure_keeps_text
           [ WsOpen 1 (lit "0.4fzyo82mvyr"); WsMessage 1 (chat "Hi") ]
           0 1 (lit "Hello wor") 200).
  - reflexivity.
  - reflexivity.
  - lia.
Defined.

(* ===================================================================== *)
(** * Connecting and leaving *)
(* ===================================================================== *)

Lemma find_split {A} (f : A -> bool) l c :
  find f l = Some c ->
  exists l1 l2, l = l1 ++ c :: l2 /\ f c = true /\ forallb (fun x => negb (f x)) l1 = true.
Proof.
  induction l as [|a l IH]; simpl; intros H; [discriminate|].
  destruct (f a) eqn:E.
  - injection H as <-. exists [], l. auto.
  - destruct (IH H) as (l1 & l2 & -> & Hc & Hl).
    exists (a :: l1), l2. simpl. rewrite E. auto.
Qed.

Lemma delete_by_reference l1 c l2 :
  NoDup (map addr (l1 ++ c :: l2)) ->
  filter (fun x => negb (addr x =? addr c)) (l1 ++ c :: l2) = l1 ++ l2.
Proof.
  intros Hd. rewrite filter_app. cbn [filter]. rewrite Nat.eqb_refl. cbn [negb].
  rewrite map_app in Hd. cbn [map] in Hd. apply NoDup_remove in Hd as [_ Hn].
  f_equal; apply filter_all_in; intros x Hx; apply negb_true_iff, Nat.eqb_neq;
    intros E; apply Hn; rewrite <- E; apply in_or_app; [left | right]; now apply in_map.
Qed.

(** X7.  [close] on a socket no registered client has changes nothing.
    Otherwise it removes one entry of the registry, the first client with
    that socket, keeps the others in their order and changes nothing else:
    nothing is sent, the queue and the worker are left alone. *)
Theorem close_removes_one_client (es : list Event) (w : socket) :
  let s := run es initial in
  match find (fun c => ws c =? w) (clients s) with
  | None => step s (WsClose w) = s
  | Some c =>
      exists l1 l2,
        clients s = l1 ++ c :: l2 /\
        forallb (fun x => negb (ws x =? w)) l1 = true /\
        step s (WsClose w) = with_clients (l1 ++ l2) s
  end.
Proof.
  intros s. destruct (reachable_invariants es) as (_ & _ & [Hd _]). fold s in Hd.
  clearbody s.
  destruct (find (fun c => ws c =? w) (clients s)) as [c|] eqn:F.
  - destruct (find_split _ _ _ F) as (l1 & l2 & E & _ & Hl).
    exists l1, l2. split; [exact E|]. split; [exact Hl|].
    unfold step, exec, dispatch, close, Set_delete, bind, gets, modify. rewrite F.
    cbn [snd]. rewrite E in Hd |- *. now rewrite delete_by_reference.
  - unfold step, exec, dispatch, close, bind, gets. now rewrite F.
Qed.

(** X8.  A client that connects on a socket not yet registered and then
    leaves puts the registry back as it was, whatever identifier it drew. *)
Theorem open_then_close_restores_registry
    (es : list Event) (w : socket) (draw : jsstring) :
  let s := run es initial in
  forallb (fun c => negb (ws c =? w)) (clients s) = true ->
  clients (run [WsOpen w draw; WsClose w] s) = clients s.
Proof.
  intros s Hw. destruct (reachable_invariants es) as (_ & _ & [Hd Hb]). fold s in Hd, Hb.
  clearbody s.
  assert (existsb (fun x => addr x =? next_addr s) (clients s) = false) as Fa.
  { apply not_true_is_false. intros E. apply existsb_exists in E as [c [Hc E]].
    apply Nat.eqb_eq in E. specialize (Hb c Hc). lia. }
  assert (find (fun c => ws c =? w)
            (clients s ++ [mkClient (next_addr s) w (substring 7 draw)])
          = Some (mkClient (next_addr s) w (substring 7 draw))) as Ff.
  { revert Hw. generalize (clients s). intros l Hl.
    induction l as [|a l IH]; simpl in *; [now rewrite Nat.eqb_refl|].
    apply andb_prop in Hl as [Ha Hl]. apply negb_true_iff in Ha. rewrite Ha. auto. }
  assert (filter (fun x => negb (addr x =? next_addr s))
            (clients s ++ [mkClient (next_addr s) w (substring 7 draw)])
          = clients s) as Fd.
  { rewrite filter_app. cbn [filter addr]. rewrite Nat.eqb_refl. cbn [negb].
    rewrite app_nil_r. apply filter_all_in. intros x Hx.
    apply negb_true_iff, Nat.eqb_neq. specialize (Hb x Hx). lia. }
  destruct s as [[q b t] ? ? ? ? ? ? ? ? ? ? ? ? ? ? ?]. proj.
  cbn [run fold_left].
  unfold step, exec, dispatch, open, close, Set_add, Set_delete, ws_send,
    bind, gets, modify, ret. proj. cbn [addr]. rewrite Fa. proj.
  destruct (existsb (Nat.eqb w) closed0); proj; rewrite Ff; proj; cbn [addr];
    exact Fd.
Qed.

Lemma open_then_close_restores_registry_witness :
  clients (run [WsOpen 2 (lit "0.i"); WsClose 2] (run hello_queued initial))
  = clients (run hello_queued initial).
Proof.
  apply (open_then_close_restores_registry hello_queued 2 (lit "0.i")).
  reflexivity.
Defined.

(* ===================================================================== *)
(** * More on the aggregator and its timers *)
(* ===================================================================== *)

(** X9.  [flush] is idempotent, and [clear] absorbs it: a second flush
    right after a flush pushes nothing and changes nothing, and a flush
    before or after a clear is as good as the clear alone. *)
Theorem flush_is_idempotent (s : State) :
  exec flush (exec flush s) = exec flush s /\
  exec clear (exec flush s) = exec clear s /\
  exec flush (exec clear s) = exec clear s.
Proof.
  unfold exec. rewrite ?clear_eq, ?flush_eq. cbn [snd]. rewrite ?clear_eq, ?flush_eq.
  cbn [snd].
  destruct s as [[q b t] ? ? ? ? ? ? ? ? ? ? ? ? ? ? ?]. proj.
  unfold with_timers, with_ttsQueue. proj. cbn [without].
  unfold flushed, phrase_of, set_queue in *. proj.
  destruct (truthy (trim b)) eqn:E; proj.
  - cbn. rewrite app_nil_r. repeat split.
  - rewrite E. rewrite !app_nil_r. repeat split.
Qed.

(** X10.  In every reachable state at most one flush timer is pending,
    and it is the one [TTSQueue.timeout] holds; at most five restart timers
    are pending, and at most six workers have been spawned. *)
Theorem pending_timers_bounded (es : list Event) :
  let s := run es initial in
  List.length (pending_flushes s) <= 1 /\
  (forall t, In t (pending_flushes s) -> timeout (ttsQueue s) = Some (handle t)) /\
  List.length (pending_restarts s) <= 5 /\
  1 <= next_pid s <= 6.
Proof.
  intros s. destruct (reachable_invariants es) as (W & B & _).
  destruct (served_run es) as (_ & [p [_ Lp]] & _). fold s in W, B, Lp. clearbody s.
  destruct W as (Hd & _ & Hf & _). destruct B as [B0 B1].
  assert (forall t, In t (pending_flushes s) -> timeout (ttsQueue s) = Some (handle t)) as K.
  { intros t Hin. apply filter_In in Hin as [Hin Ft]. now apply Hf. }
  split; [|split; [exact K|lia]].
  assert (NoDup (map handle (pending_flushes s))) as Hd'
    by (now apply NoDup_map_filter).
  destruct (pending_flushes s) as [|a [|b l]]; simpl; try lia.
  exfalso. pose proof (K a (or_introl eq_refl)) as Ka.
  pose proof (K b (or_intror (or_introl eq_refl))) as Kb.
  rewrite Ka in Kb. injection Kb as Kb.
  inversion Hd' as [|? ? Hn _]; subst. apply Hn. simpl. now left.
Qed.

(* ===================================================================== *)
(** * A request from end to end *)
(* ===================================================================== *)

(** A valid request: the aggregator is cleared, the handler waits. *)
Lemma message_clears s w msg :
  valid msg = true ->
  step s (WsMessage w msg)
  = with_next_request (S (next_request s))
      (with_requests (requests s ++ [(next_request s, w)]) (exec clear s)).
Proof.
  intros H. destruct msg as [| |ty pr]; try discriminate H. cbn [valid] in H.
  unfold step, exec, dispatch, message, try_catch, bind. rewrite H.
  rewrite clear_eq. destruct s; reflexivity.
Qed.

Lemma find_fresh (rs : list (nat * socket)) n w :
  (forall r, In r rs -> fst r < n) ->
  find (fun r => fst r =? n) (rs ++ [(n, w)]) = Some (n, w).
Proof.
  intros H. induction rs as [|r rs IH]; simpl; [now rewrite Nat.eqb_refl|].
  destruct (fst r =? n) eqn:E.
  - apply Nat.eqb_eq in E. specialize (H r (or_introl eq_refl)). lia.
  - apply IH. intros x Hx. apply H. now right.
Qed.

(** The increments of a stream, one after the other, nothing in between. *)
Lemma stream_texts rid w ts : forall s,
  waiting s rid = Some (rid, w) -> refuses s w = false ->
  let s' := run (map (StreamText rid) ts) s in
  sent s' = sent s ++ chunks w ts /\
  queue (ttsQueue s') = queue (ttsQueue s) /\
  buffer (ttsQueue s') = buffer (ttsQueue s) ++ List.concat ts /\
  waiting s' rid = Some (rid, w) /\ refuses s' w = false /\
  ttsProcess s' = ttsProcess s /\ broken s' = broken s /\ written s' = written s.
Proof.
  induction ts as [|t ts IH]; intros s Hr Hw; cbv zeta.
  - simpl. rewrite !app_nil_r. repeat split; assumption.
  - cbn [map run fold_left]. rewrite (stream_text_adds s rid w t Hr Hw).
    set (s1 := exec (add t) _).
    assert (sent s1 = sent s ++ [(w, Text (MsgTextChunk t))]
            /\ queue (ttsQueue s1) = queue (ttsQueue s)
            /\ buffer (ttsQueue s1) = buffer (ttsQueue s) ++ t
            /\ waiting s1 rid = waiting s rid /\ refuses s1 w = refuses s w
            /\ ttsProcess s1 = ttsProcess s /\ broken s1 = broken s
            /\ written s1 = written s) as (E1 & E2 & E3 & E4 & E5 & E6 & E7 & E8).
    { unfold s1, exec. rewrite add_eq. destruct s as [[q b o] ? ? ? ? ? ? ? ? ? ? ? ? ? ? ?].
      repeat split. }
    clearbody s1.
    destruct (IH s1) as (I1 & I2 & I3 & I4 & I5 & I6 & I7 & I8); try congruence.
    fold (run (map (StreamText rid) ts) s1).
    rewrite I1, I2, I3, I6, I7, I8, E1, E2, E3, E6, E7, E8.
    cbn [chunks map List.concat]. rewrite <- !app_assoc.
    repeat split; assumption.
Qed.

(** The end of the stream: the handler ends, flushes, reports. *)
Lemma stream_end_flushes s rid w :
  waiting s rid = Some (rid, w) -> refuses s w = false ->
  step s (StreamEnd rid)
  = with_sent (sent s ++ [(w, Text MsgTextComplete)])
      (exec flush
         (with_requests (filter (fun r => negb (fst r =? rid)) (requests s)) s)).
Proof.
  unfold waiting, refuses. intros Hr Hw.
  destruct s as [[q b t] ? ? ? ? ? ? ? ? ? ? ? ? ? ? ?]. proj.
  unfold step, exec, dispatch, on_end, resume, finish, try_catch, bind, gets, modify.
  proj. rewrite Hr. rewrite !flush_eq. proj. unfold ws_send. proj. now rewrite Hw.
Qed.

(** The feed loop sends nothing while the pipe takes writes. *)
Lemma feed_step_sent s pid pipe :
  ttsProcess s = Some (mkProc pid (Some pipe)) ->
  existsb (Nat.eqb pipe) (broken s) = false ->
  sent (step s FeedTick) = sent s.
Proof.
  intros Hp Hb.
  destruct s as [[q b t] ? ? ? ? ? ? ? ? ? ? ? ? ? ? ?]. proj. subst.
  destruct q as [|ph q]; [reflexivity|].
  open_handler; proj. destruct (truthy ph); proj; rewrite ?Hb; reflexivity.
Qed.

(** X11.  A valid request whose generation yields its increments and
    ends before any other event (no timer fires in between and the feed
    loop does not run), the requester's socket and the worker's pipe
    working: the requester is sent the increments as [text_chunk] events
    in the order the upstream yields them, then one [text_complete]; what
    was queued before is gone, and the iteration of the feed loop that
    follows writes the worker one line, the trimmed concatenation of the
    increments and a newline, or nothing when the reply is whitespace
    only.  The queue is then empty. *)
Theorem request_served_end_to_end
    (es : list Event) (w : socket) (msg : Incoming) (ts : list jsstring) (p : nat) :
  let s := run es initial in
  valid msg = true ->
  refuses s w = false ->
  ttsProcess s = Some (mkProc p (Some p)) ->
  existsb (Nat.eqb p) (broken s) = false ->
  let s' := run (WsMessage w msg :: reply (next_request s) ts ++ [FeedTick]) s in
  sent s' = sent s ++ chunks w ts ++ [(w, Text MsgTextComplete)] /\
  written s' = written s ++ lines p (phrase_of (List.concat ts)) /\
  queue (ttsQueue s') = [].
Proof.
  intros s Hv Hw Hp Hb s'.
  destruct (requests_run es) as [_ Rb]. fold s in Rb. clearbody s.
  set (rid := next_request s) in *.
  (* the request *)
  set (s1 := step s (WsMessage w msg)).
  assert (sent s1 = sent s /\ written s1 = written s /\ queue (ttsQueue s1) = []
          /\ blank (buffer (ttsQueue s1)) = true
          /\ waiting s1 rid = Some (rid, w) /\ refuses s1 w = false
          /\ ttsProcess s1 = Some (mkProc p (Some p))
          /\ existsb (Nat.eqb p) (broken s1) = false)
    as (A1 & A2 & A3 & A4 & A5 & A6 & A7 & A8).
  { unfold s1. rewrite (message_clears s w msg Hv). unfold exec. rewrite clear_eq.
    pose proof (flushed_blank (ttsQueue s)) as B.
    pose proof (find_fresh (requests s) rid w Rb) as F.
    unfold waiting, refuses, rid in *.
    destruct s as [[q b t] ? ? ? ? ? ? ? ? ? ? ? ? ? ? ?]. proj.
    repeat split; assumption. }
  (* the increments *)
  destruct (stream_texts rid w ts s1 A5 A6) as (B1 & B2 & B3 & B4 & B5 & B6 & B7 & B8).
  set (s2 := run (map (StreamText rid) ts) s1) in *.
  (* the end *)
  set (s3 := step s2 (StreamEnd rid)).
  assert (sent s3 = sent s2 ++ [(w, Text MsgTextComplete)]
          /\ queue (ttsQueue s3) = queue (ttsQueue s2) ++ phrase_of (buffer (ttsQueue s2))
          /\ ttsProcess s3 = ttsProcess s2 /\ broken s3 = broken s2
          /\ written s3 = written s2) as (C1 & C2 & C3 & C4 & C5).
  { unfold s3. rewrite (stream_end_flushes s2 rid w B4 B5). unfold exec. rewrite flush_eq.
    destruct s2 as [[q b t] ? ? ? ? ? ? ? ? ? ? ? ? ? ? ?]. repeat split. }
  assert (queue (ttsQueue s3) = phrase_of (List.concat ts)) as Q3.
  { rewrite C2, B2, A3, B3. cbn [app]. now apply phrase_of_blank_prefix. }
  (* the feed loop *)
  assert (s' = step s3 FeedTick) as E.
  { unfold s'.
    change (WsMessage w msg :: reply rid ts ++ [FeedTick])
      with ([WsMessage w msg] ++ (map (StreamText rid) ts ++ [StreamEnd rid]) ++ [FeedTick]).
    now rewrite !run_app. }
  destruct (feed_step s3 p p) as (_ & _ & D1 & D2); [congruence | congruence |].
  assert (sent (step s3 FeedTick) = sent s3) as D3
    by (apply feed_step_sent with (pid := p) (pipe := p); congruence).
  rewrite E, D1, D2, D3, Q3, C1, C5, B1, B8, A1, A2.
  assert (firstn 1 (phrase_of (List.concat ts)) = phrase_of (List.concat ts)
          /\ tl (phrase_of (List.concat ts)) = []) as [F1 F2]
    by (unfold phrase_of; destruct (truthy (trim (List.concat ts))); split; reflexivity).
  rewrite F1, F2, <- app_assoc. repeat split.
Qed.

Lemma request_served_end_to_end_witness :
  let s := run hello_queued initial in
  let ts := [lit " Hello"; lit ", "; lit "world. "] in
  let s' := run (WsMessage 1 (chat "Hi") :: reply (next_request s) ts ++ [FeedTick]) s in
  sent s' = sent s ++ chunks 1 ts ++ [(1, Text MsgTextComplete)] /\
  written s' = written s ++ lines 0 (phrase_of (List.concat ts)) /\
  queue (ttsQueue s') = [].
Proof.
  apply (request_served_end_to_end hello_queued 1 (chat "Hi")
           [lit " Hello"; lit ", "; lit "world. "] 0); reflexivity.
Defined.

(* ===================================================================== *)
(** * The aggregator and the one it replaced *)
(* ===================================================================== *)

Lemma filter_idem {A} (f : A -> bool) l : filter f (filter f l) = filter f l.
Proof.
  rewrite filter_filter. apply filter_ext. intros x. now destruct (f x).
Qed.

Lemma without_idem h ts : without h (without h ts) = without h ts.
Proof. destruct h; simpl; [apply filter_idem | reflexivity]. Qed.

Lemma take_unprocessed_head i l :
  Legacy.processed i = false -> Legacy.take_unprocessed (i :: l) = Some (i, l).
Proof. intros H. simpl. now rewrite H. Qed.

Lemma matches_start r : matches (Legacy.start r) initial.
Proof.
  unfold matches. simpl. repeat split; try constructor; try discriminate;
    try contradiction.
Qed.

Lemma legacy_add_eq t x :
  snd (Legacy.add t x)
  = Legacy.mkWorld
      (Legacy.mkLegacyQueue (Legacy.queue (Legacy.ttsQueue x))
         (Legacy.textBuffer (Legacy.ttsQueue x) ++ t) (Some (Legacy.fresh x)))
      (Legacy.clock x)
      (without (Legacy.bufferTimeout (Legacy.ttsQueue x)) (Legacy.pending x)
         ++ [mkTimer (Legacy.fresh x) (Legacy.clock x + 200) CbFlush])
      (S (Legacy.fresh x)) (Legacy.random x) (S (Legacy.drawn x)).
Proof. destruct x as [[lq lb [h|]] c p f r d]; reflexivity. Qed.

(** The queue object after the earlier [flushBuffer]. *)
Lemma legacy_flush_eq x :
  Legacy.flushBuffer x
  = let q := Legacy.ttsQueue x in
    let b := Legacy.textBuffer q in
    if truthy (trim b)
    then Legacy.mkWorld
           (Legacy.mkLegacyQueue
              (Legacy.queue q
                 ++ [Legacy.mkItem (substring 7 (Legacy.random x (Legacy.drawn x)))
                       (trim b) (Legacy.clock x) false])
              [] None)
           (Legacy.clock x)
           (without (Legacy.bufferTimeout q) (Legacy.pending x))
           (Legacy.fresh x) (Legacy.random x) (S (Legacy.drawn x))
    else Legacy.mkWorld (Legacy.mkLegacyQueue (Legacy.queue q) b None)
           (Legacy.clock x)
           (without (Legacy.bufferTimeout q) (Legacy.pending x))
           (Legacy.fresh x) (Legacy.random x) (Legacy.drawn x).
Proof.
  destruct x as [[lq lb [h|]] c p f r d]; cbn;
    unfold Legacy.flushBuffer, Legacy.push_buffer, Legacy.cancel; cbn;
    destruct (truthy (trim lb)); reflexivity.
Qed.

Lemma legacy_clear_eq x :
  Legacy.clear x
  = Legacy.mkWorld (Legacy.mkLegacyQueue [] [] None) (Legacy.clock x)
      (without (Legacy.bufferTimeout (Legacy.ttsQueue x)) (Legacy.pending x))
      (Legacy.fresh x) (Legacy.random x) (Legacy.drawn x).
Proof. destruct x as [[lq lb [h|]] c p f r d]; reflexivity. Qed.

Lemma matches_add x s t :
  matches x s -> matches (snd (Legacy.add t x)) (exec (add t) s).
Proof.
  intros (Q & I & B & C & P & F & W & R & L).
  unfold exec. rewrite add_eq, legacy_add_eq.
  destruct x as [[lq lb lt] c p f r d].
  destruct s as [[q b o] ? ? ? ? ? ? ? ? ? ? ? ? ? ? ?].
  unfold matches, wf, pending_restarts in *.
  cbn [Legacy.ttsQueue Legacy.queue Legacy.textBuffer Legacy.bufferTimeout
       Legacy.clock Legacy.pending Legacy.fresh] in *.
  proj. subst. rewrite L.
  split; [reflexivity|]. split; [exact I|].
  split; [rewrite !trimStart_app, B; reflexivity|].
  split; [reflexivity|]. split; [reflexivity|]. split; [reflexivity|].
  split; [now apply timers_ok_add|].
  split; [rewrite filter_app, pending_without by assumption; reflexivity|].
  reflexivity.
Qed.

Lemma blank_trimStart b : truthy (trim b) = false -> trimStart b = [].
Proof.
  intros H. rewrite truthy_trim in H. apply negb_false_iff in H.
  now apply trimStart_blank.
Qed.

Lemma matches_flush x s :
  matches x s -> matches (Legacy.flushBuffer x) (exec flush s).
Proof.
  intros (Q & I & B & C & P & F & W & R & L).
  unfold exec. rewrite flush_eq, legacy_flush_eq. cbv zeta.
  pose proof (trim_congr _ _ B) as T.
  destruct x as [[lq lb lt] c p f r d].
  destruct s as [[q b o] ? ? ? ? ? ? ? ? ? ? ? ? ? ? ?].
  unfold matches, wf, pending_restarts, flushed, phrase_of in *.
  cbn [Legacy.ttsQueue Legacy.queue Legacy.textBuffer Legacy.bufferTimeout
       Legacy.clock Legacy.pending Legacy.fresh] in *.
  proj. subst. rewrite L, T.
  destruct (truthy (trim b)) eqn:E;
    cbn [Legacy.ttsQueue Legacy.queue Legacy.textBuffer Legacy.bufferTimeout
         Legacy.clock Legacy.pending Legacy.fresh without]; proj.
  - split; [rewrite map_app; reflexivity|].
    split; [apply Forall_app; split; [exact I|];
            constructor; [split; [reflexivity | exact E] | constructor]|].
    split; [reflexivity|]. split; [reflexivity|]. split; [reflexivity|].
    split; [reflexivity|]. split; [now apply timers_ok_flush|].
    split; [now apply pending_without | reflexivity].
  - rewrite app_nil_r.
    split; [reflexivity|]. split; [exact I|]. split; [exact B|].
    split; [reflexivity|]. split; [reflexivity|]. split; [reflexivity|].
    split; [now apply timers_ok_flush|].
    split; [now apply pending_without | reflexivity].
Qed.

Lemma matches_clear x s :
  matches x s -> matches (Legacy.clear x) (exec clear s).
Proof.
  intros (Q & I & B & C & P & F & W & R & L).
  unfold exec. rewrite clear_eq, legacy_clear_eq.
  destruct x as [[lq lb lt] c p f r d].
  destruct s as [[q b o] ? ? ? ? ? ? ? ? ? ? ? ? ? ? ?].
  unfold matches, wf, pending_restarts, flushed, phrase_of, set_queue in *.
  cbn [Legacy.ttsQueue Legacy.queue Legacy.textBuffer Legacy.bufferTimeout
       Legacy.clock Legacy.pending Legacy.fresh without] in *.
  proj. subst. rewrite L.
  split; [reflexivity|]. split; [constructor|].
  split; [destruct (truthy (trim b)) eqn:E;
          [reflexivity | symmetry; now apply blank_trimStart]|].
  split; [reflexivity|]. split; [reflexivity|]. split; [reflexivity|].
  split; [now apply timers_ok_flush|].
  split; [now apply pending_without | reflexivity].
Qed.

(** Proves a conjunction, each part by what is at hand. *)
Ltac by_parts :=
  repeat (split; [first [reflexivity | assumption]|]);
  first [reflexivity | assumption].

Lemma matches_next x s :
  matches x s ->
  fst (legacy_perform OpNext x) = fst (perform OpNext s) /\
  matches (snd (legacy_perform OpNext x)) (snd (perform OpNext s)).
Proof.
  intros (Q & I & B & C & P & F & W & R & L).
  destruct x as [[lq lb lt] c p f r d].
  destruct s as [[q b o] ? ? ? ? ? ? ? ? ? ? ? ? ? ? ?].
  unfold matches, wf, pending_restarts in *.
  cbn [Legacy.ttsQueue Legacy.queue Legacy.textBuffer Legacy.bufferTimeout
       Legacy.clock Legacy.pending Legacy.fresh] in *.
  proj. subst.
  unfold perform, legacy_perform, Legacy.getNext, next, update_queue, bind, gets,
    modify, ret.
  cbn [Legacy.ttsQueue Legacy.queue Legacy.textBuffer Legacy.bufferTimeout]. proj.
  destruct lq as [|i lq].
  - cbn. split; [reflexivity|]. by_parts.
  - inversion I as [|? ? [Ip It] I']; subst.
    rewrite (take_unprocessed_head i lq Ip). cbn [map]. proj.
    cbn [fst snd option_map Legacy.ttsQueue Legacy.queue Legacy.textBuffer
         Legacy.bufferTimeout Legacy.clock Legacy.pending Legacy.fresh
         Legacy.with_queue]. rewrite It.
    split; [reflexivity|]. by_parts.
Qed.

Lemma matches_size x s :
  matches x s ->
  Legacy.size x = List.length (queue (ttsQueue s)) /\
  Legacy.isEmpty x = match queue (ttsQueue s) with [] => true | _ => false end.
Proof.
  intros (Q & _). unfold Legacy.size, Legacy.isEmpty. rewrite <- Q, length_map.
  split; [reflexivity|]. now destruct (Legacy.queue (Legacy.ttsQueue x)).
Qed.

(** A flush timer runs on both sides. *)
Lemma matches_fired x s t :
  matches x s -> In t (timers s) ->
  matches
    (Legacy.push_buffer
       (Legacy.with_pending
          (filter (fun u => negb (handle u =? handle t)) (Legacy.pending x)) x))
    (exec (fire (callback t)) (exec (clearTimeout (handle t)) s)).
Proof.
  intros M Hin. pose proof M as (Q & I & B & C & P & F & W & R & L).
  rewrite (only_flush_pending s t R Hin). cbn [fire].
  assert (timeout (ttsQueue s) = Some (handle t)) as Ho.
  { destruct W as (_ & _ & Hf & _). apply (Hf t Hin).
    unfold is_flush. now rewrite (only_flush_pending s t R Hin). }
  pose proof (trim_congr _ _ B) as T.
  unfold exec. rewrite flush_eq.
  destruct x as [[lq lb lt] c p f r d].
  destruct s as [[q b o] ? ? ? ? ? ? ? ? ? ? ? ? ? ? ?].
  unfold matches, wf, pending_restarts, flushed, phrase_of,
    Legacy.push_buffer, Legacy.with_pending, Legacy.new_id, Legacy.with_queue,
    clearTimeout, modify in *.
  cbn [Legacy.ttsQueue Legacy.queue Legacy.textBuffer Legacy.bufferTimeout
       Legacy.clock Legacy.pending Legacy.fresh Legacy.random Legacy.drawn] in *.
  proj. subst. cbn [without] in *. rewrite filter_idem. rewrite T.
  set (ts := filter (fun u => negb (handle u =? handle t)) timers0) in *.
  assert (without lt ts = ts) as L'.
  { rewrite <- L. apply without_idem. }
  assert (timers_ok ts next_handle0 None) as W'.
  { apply (timers_ok_flush timers0 next_handle0 (Some (handle t)) W). }
  assert (filter is_restart ts = []) as R' by (now apply filter_nil_sub).
  destruct (truthy (trim b)) eqn:E;
    cbn [Legacy.ttsQueue Legacy.queue Legacy.textBuffer Legacy.bufferTimeout
         Legacy.clock Legacy.pending Legacy.fresh]; proj.
  - split; [rewrite map_app; reflexivity|].
    split; [apply Forall_app; split; [exact I|];
            constructor; [split; [reflexivity | exact E] | constructor]|].
    by_parts.
  - rewrite app_nil_r. by_parts.
Qed.

Lemma matches_run_due n : forall x s,
  matches x s -> matches (Legacy.run_due n x) (exec (run_due n) s).
Proof.
  induction n as [|n IH]; intros x s M; [exact M|].
  rewrite run_due_S. cbn [Legacy.run_due].
  pose proof M as (_ & _ & _ & C & P & _). rewrite C, P.
  destruct (earliest_due (now s) (timers s)) as [t|] eqn:E; [|exact M].
  apply earliest_due_In in E as [Hin _].
  apply IH. rewrite <- P. now apply matches_fired.
Qed.

Lemma matches_elapse d x s :
  matches x s -> matches (Legacy.elapse d x) (exec (elapse d) s).
Proof.
  intros M. rewrite elapse_eq. unfold Legacy.elapse.
  pose proof M as (Q & I & B & C & P & F & W & R & L).
  rewrite P. apply matches_run_due.
  destruct x as [[lq lb lt] c p f r k].
  destruct s as [[q b o] ? ? ? ? ? ? ? ? ? ? ? ? ? ? ?].
  unfold matches in *.
  cbn [Legacy.ttsQueue Legacy.queue Legacy.textBuffer Legacy.bufferTimeout
       Legacy.clock Legacy.pending Legacy.fresh] in *.
  proj. subst. by_parts.
Qed.

Lemma matches_perform o x s :
  matches x s ->
  fst (legacy_perform o x) = fst (perform o s) /\
  matches (snd (legacy_perform o x)) (snd (perform o s)).
Proof.
  intros M. destruct o; cbn [perform legacy_perform fst snd].
  - split; [reflexivity | now apply matches_add].
  - split; [reflexivity | now apply matches_flush].
  - split; [reflexivity | now apply matches_clear].
  - now apply matches_next.
  - destruct (matches_size x s M) as [E _]. unfold size, gets. cbn. now rewrite E.
  - destruct (matches_size x s M) as [_ E]. unfold isEmpty, gets. cbn. now rewrite E.
  - split; [reflexivity | now apply matches_elapse].
Qed.

Lemma matches_observe ops : forall x s,
  matches x s -> legacy_observe ops x = observe ops s.
Proof.
  induction ops as [|o ops IH]; intros x s M; [reflexivity|].
  cbn [observe legacy_observe].
  destruct (matches_perform o x s M) as [E M'].
  destruct (legacy_perform o x) as [obs x'], (perform o s) as [obs' s'].
  cbn [fst snd] in *. subst. f_equal. now apply IH.
Qed.

(** X12.  The aggregator of [unified-server.ts] does what the aggregator
    of the earlier server did: under any sequence of [add], [flush],
    [clear], [next], [size], [isEmpty] and passing time, both started empty,
    they report the same sizes and hand out the same phrases in the same
    order, whatever identifiers the earlier one draws for its items. *)
Theorem aggregator_refines_earlier (ops : list Op) (r : nat -> jsstring) :
  observe ops initial = legacy_observe ops (Legacy.start r).
Proof. symmetry. apply matches_observe, matches_start. Qed.

(* ===================================================================== *)
(** * The client of a request *)
(* ===================================================================== *)

Lemma waiting_fresh s :
  (forall r, In r (requests s) -> fst r < next_request s) ->
  waiting s (next_request s) = None.
Proof.
  unfold waiting. intros H. generalize dependent (next_request s). intros n H.
  induction (requests s) as [|r rs IH]; [reflexivity|]. simpl.
  destruct (fst r =? n) eqn:E.
  - apply Nat.eqb_eq in E. specialize (H r (or_introl eq_refl)). lia.
  - apply IH. intros x Hx. apply H. now right.
Qed.

(** What a valid request and its generation send. *)
Lemma reply_sent s w msg ts :
  (forall r, In r (requests s) -> fst r < next_request s) ->
  valid msg = true -> refuses s w = false ->
  sent (run (WsMessage w msg :: reply (next_request s) ts) s)
  = sent s ++ chunks w ts ++ [(w, Text MsgTextComplete)].
Proof.
  intros Rb Hv Hw. set (rid := next_request s).
  set (s1 := step s (WsMessage w msg)).
  assert (sent s1 = sent s /\ waiting s1 rid = Some (rid, w) /\ refuses s1 w = false)
    as (A1 & A2 & A3).
  { unfold s1. rewrite (message_clears s w msg Hv). unfold exec. rewrite clear_eq.
    pose proof (find_fresh (requests s) rid w Rb) as F.
    unfold waiting, refuses, rid in *.
    destruct s as [[q b t] ? ? ? ? ? ? ? ? ? ? ? ? ? ? ?]. proj.
    repeat split; assumption. }
  destruct (stream_texts rid w ts s1 A2 A3) as (B1 & _ & _ & B4 & B5 & _).
  set (s2 := run (map (StreamText rid) ts) s1) in *.
  assert (sent (step s2 (StreamEnd rid)) = sent s2 ++ [(w, Text MsgTextComplete)]) as C.
  { rewrite (stream_end_flushes s2 rid w B4 B5). unfold exec. rewrite flush_eq.
    destruct s2 as [[q b t] ? ? ? ? ? ? ? ? ? ? ? ? ? ? ?]. reflexivity. }
  change (WsMessage w msg :: reply rid ts)
    with ([WsMessage w msg] ++ map (StreamText rid) ts ++ [StreamEnd rid]).
  rewrite !run_app. change (run [WsMessage w msg] s) with s1. fold s2.
  change (run [StreamEnd rid] s2) with (step s2 (StreamEnd rid)).
  now rewrite C, B1, A1, <- app_assoc.
Qed.

(** What a request that is not valid, and a generation nobody waits
    for, send. *)
Lemma rejected_sent s w msg ts :
  (forall r, In r (requests s) -> fst r < next_request s) ->
  valid msg = false -> refuses s w = false ->
  sent (run (WsMessage w msg :: reply (next_request s) ts) s)
  = sent s ++ [(w, Text (MsgError (rejection msg)))].
Proof.
  intros Rb Hv Hw. pose proof (waiting_fresh s Rb) as F. set (rid := next_request s) in *.
  assert (step s (WsMessage w msg)
          = with_sent (sent s ++ [(w, Text (MsgError (rejection msg)))]) s) as E.
  { unfold refuses in Hw. clearbody rid.
    destruct s as [[q b t] ? ? ? ? ? ? ? ? ? ? ? ? ? ? ?].
    destruct msg as [| |ty pr]; cbn [valid rejection] in *;
      open_handler; proj; rewrite ?Hv; proj; rewrite ?Hw; proj; rewrite ?Hw;
      reflexivity. }
  cbn [run fold_left]. rewrite E.
  set (s1 := with_sent _ s).
  assert (waiting s1 rid = None) as F1
    by (unfold s1, waiting in *; destruct s; exact F).
  fold (run (reply rid ts) s1).
  rewrite (stream_events_ignored (reply rid ts) s1 rid F1).
  - unfold s1. destruct s; reflexivity.
  - unfold reply. rewrite forallb_app. apply andb_true_intro. split.
    + rewrite forallb_forall. intros e He. apply in_map_iff in He as (t & <- & _).
      simpl. apply Nat.eqb_refl.
    + simpl. now rewrite Nat.eqb_refl.
Qed.

Lemma delivered_since w s s' l :
  sent s' = sent s ++ l ->
  delivered w (List.length (sent s)) s' = map snd (filter (fun m => fst m =? w) l).
Proof.
  intros E. unfold delivered. rewrite E, skipn_app, skipn_all, Nat.sub_diag.
  reflexivity.
Qed.

Lemma chunks_for w w' ts :
  map snd (filter (fun m => fst m =? w') (chunks w ts))
  = if w' =? w then map (fun t => Text (MsgTextChunk t)) ts else [].
Proof.
  rewrite (Nat.eqb_sym w' w).
  induction ts as [|t ts IH]; simpl; [now destruct (w =? w')|].
  destruct (w =? w'); simpl; now rewrite IH.
Qed.

Lemma receive_app ps qs st : receive (ps ++ qs) st = receive qs (receive ps st).
Proof. apply fold_left_app. Qed.

(** The increments are appended to the response, nothing else changes. *)
Lemma receive_chunks ts : forall st,
  receive (map (fun t => Text (MsgTextChunk t)) ts) st
  = Hook.mkChat (Hook.isConnected st) (Hook.currentResponse st ++ List.concat ts)
      (Hook.isStreaming st) (Hook.error st).
Proof.
  induction ts as [|t ts IH]; intros [c r b e]; simpl.
  - now rewrite app_nil_r.
  - change (fold_left _ _ ?x) with (receive (map (fun t => Text (MsgTextChunk t)) ts) x).
    rewrite IH. simpl. now rewrite app_assoc.
Qed.

(** X14.  The hook of the client and the server together.  A client
    whose socket works sends a prompt with [sendMessage]; the server
    handles it and the generation yields the increments [ts].  When the
    prompt is not empty the client ends with the concatenation of the
    increments as its response, not streaming, no error; when it is
    empty, which [sendMessage] does not check, the client ends with the
    error the server answers, Invalid format, and an empty response.  A
    client on any other socket is sent nothing by the exchange. *)
Theorem client_shows_the_reply
    (es : list Event) (w : socket) (prompt : jsstring) (ts : list jsstring)
    (st st1 : Hook.ChatState) (ready : bool) (msg : Incoming) :
  let s := run es initial in
  refuses s w = false ->
  Hook.sendMessage ready prompt st = (st1, Some msg) ->
  let s' := run (WsMessage w msg :: reply (next_request s) ts) s in
  receive (delivered w (List.length (sent s)) s') st1
  = (if truthy prompt
     then Hook.mkChat (Hook.isConnected st) (List.concat ts) false None
     else Hook.mkChat (Hook.isConnected st) [] false (Some invalid_format)) /\
  forall w' st',
    receive (delivered w' (List.length (sent s)) s') st'
    = if w' =? w then receive (delivered w (List.length (sent s)) s') st' else st'.
Proof.
  intros s Hw Hs s'.
  destruct (requests_run es) as [_ Rb]. fold s in Rb. clearbody s.
  unfold Hook.sendMessage in Hs. destruct ready; [|discriminate Hs].
  injection Hs as <- <-.
  set (msg := JsonValue _ _) in *.
  assert (valid msg = truthy prompt) as V by reflexivity.
  assert (forall w' st',
            receive (delivered w' (List.length (sent s)) s') st'
            = if w' =? w
              then if truthy prompt
                   then Hook.mkChat (Hook.isConnected st')
                          (Hook.currentResponse st' ++ List.concat ts) false
                          (Hook.error st')
                   else Hook.mkChat (Hook.isConnected st') (Hook.currentResponse st')
                          false (Some invalid_format)
              else st') as R.
  { intros w' st'. destruct (truthy prompt) eqn:T.
    - rewrite (delivered_since w' s s' _ (reply_sent s w msg ts Rb V Hw)).
      rewrite filter_app, map_app, chunks_for. simpl.
      destruct (w' =? w) eqn:E; rewrite (Nat.eqb_sym w w'), E; simpl.
      + rewrite receive_app, receive_chunks. reflexivity.
      + reflexivity.
    - rewrite (delivered_since w' s s' _ (rejected_sent s w msg ts Rb V Hw)).
      simpl. rewrite (Nat.eqb_sym w w').
      destruct (w' =? w); reflexivity. }
  split.
  - rewrite R, Nat.eqb_refl. destruct (truthy prompt); reflexivity.
  - intros w' st'. rewrite !R, Nat.eqb_refl. reflexivity.
Qed.

Lemma client_shows_the_reply_witness :
  let s := run hello_queued initial in
  let ts := [lit " Hello"; lit ", "; lit "world. "] in
  let s' := run (WsMessage 1 (chat "Hi") :: reply (next_request s) ts) s in
  receive (delivered 1 (List.length (sent s)) s') (Hook.mkChat true [] true None)
  = Hook.mkChat true (lit " Hello, world. ") false None /\
  forall w' st',
    receive (delivered w' (List.length (sent s)) s') st'
    = if w' =? 1 then receive (delivered 1 (List.length (sent s)) s') st' else st'.
Proof.
  apply (client_shows_the_reply hello_queued 1 (lit "Hi")
           [lit " Hello"; lit ", "; lit "world. "]
           (Hook.mkChat true (lit "an earlier reply") false None)
           (Hook.mkChat true [] true None) true (chat "Hi")); reflexivity.
Defined.

(* ===================================================================== *)
(** * The worker's clean exit *)
(* ===================================================================== *)







(* ===================================================================== *)
(** * The reconnecting client *)
(* ===================================================================== *)

Lemma set_state_length i r l : List.length (Lib.set_state i r l) = List.length l.
Proof.
  revert i. induction l as [|x l IH]; intros [|i]; simpl; auto.
Qed.

Lemma clearTimeout_le h l : List.length (Lib.clearTimeout h l) <= List.length l.
Proof. apply filter_length_le. Qed.

Lemma clearTimeout_lt h l :
  existsb (Nat.eqb h) l = true -> List.length (Lib.clearTimeout h l) < List.length l.
Proof.
  induction l as [|x l IH]; simpl; [discriminate|].
  rewrite (Nat.eqb_sym h x). destruct (x =? h); simpl.
  - intros _. pose proof (clearTimeout_le h l). unfold Lib.clearTimeout in *. lia.
  - intros H. specialize (IH H). unfold Lib.clearTimeout in *. lia.
Qed.

Lemma accounted_connect m k o c :
  accounted m k o c -> accounted m (S k) o (Lib.connect c).
Proof.
  intros (M & A & B). unfold Lib.connect.
  destruct (Lib.isConnected c); unfold accounted; simpl;
    rewrite ?length_app; simpl; repeat split; try assumption; lia.
Qed.

Lemma accounted_fired m k o c h :
  accounted m k o c -> existsb (Nat.eqb h) (Lib.pending c) = true ->
  accounted m k o (Lib.connect (Lib.with_pending (Lib.clearTimeout h (Lib.pending c)) c)).
Proof.
  intros (M & A & B) H. pose proof (clearTimeout_lt h _ H) as L.
  unfold Lib.connect.
  destruct (Lib.isConnected _); unfold accounted; simpl;
    rewrite ?length_app; simpl; repeat split; try assumption; lia.
Qed.

Lemma accounted_step m k o c e :
  accounted m k o c ->
  accounted m (k + Lib.connects [e]) (o + Lib.opens [e]) (Lib.step c e).
Proof.
  intros I. pose proof I as (M & A & B).
  destruct e as [| |i|i|h]; cbn [Lib.step Lib.connects Lib.opens filter List.length];
    rewrite ?Nat.add_0_r.
  - rewrite Nat.add_1_r. now apply accounted_connect.
  - unfold Lib.disconnect.
    destruct (Lib.reconnectTimeout c) as [h|]; cbn [Lib.ws];
      [pose proof (clearTimeout_le h (Lib.pending c))|];
      destruct (Lib.ws c) as [i|]; try exact I;
      unfold accounted; cbn;
      try (destruct (nth_error (Lib.socks c) i) as [[| | |]|]);
      rewrite ?set_state_length;
      repeat split; try assumption; lia.
  - destruct (nth_error (Lib.socks c) i) as [[| | |]|];
      unfold accounted in *; cbn; rewrite ?set_state_length;
      repeat split; try assumption; nia.
  - assert (forall c', accounted m k o c' -> accounted m k o (Lib.onclose c')) as S.
    { intros c' (M' & A' & B'). unfold Lib.onclose, Lib.scheduleReconnect, Lib.exhausted.
      rewrite M'. destruct (m <=? Lib.reconnectAttempts c') eqn:E;
        [repeat split; assumption|].
      apply Nat.leb_gt in E. unfold accounted. cbn. rewrite length_app. cbn.
      repeat split; try assumption; lia. }
    destruct (nth_error (Lib.socks c) i) as [[| | |]|]; try exact I; apply S;
      unfold accounted; cbn; rewrite set_state_length; repeat split; assumption.
  - destruct (existsb (Nat.eqb h) (Lib.pending c)) eqn:E; [|exact I].
    now apply accounted_fired.
Qed.

Lemma accounted_run m es : forall k o c,
  accounted m k o c ->
  accounted m (k + Lib.connects es) (o + Lib.opens es) (Lib.run es c).
Proof.
  induction es as [|e es IH]; intros k o c I.
  - cbn. now rewrite !Nat.add_0_r.
  - cbn [Lib.run fold_left]. fold (Lib.run es (Lib.step c e)).
    apply (accounted_step m k o c e) in I. apply IH in I.
    replace (k + Lib.connects (e :: es))
      with (k + Lib.connects [e] + Lib.connects es);
    [replace (o + Lib.opens (e :: es)) with (o + Lib.opens [e] + Lib.opens es);
     [exact I|]|];
    unfold Lib.connects, Lib.opens; destruct e; simpl; lia.
Qed.

(** X15.  The reconnecting client made with the bound [m] on its
    attempts, under any calls of its owner and any events of its sockets
    and timers: the attempt counter never exceeds [m], and the sockets it
    has made are at most the calls of [connect] by its owner and [m]
    reconnections at the start and after each time a socket opened. *)
Theorem reconnects_bounded (m : nat) (es : list Lib.Event) :
  let c := Lib.run es (Lib.create (Some m)) in
  Lib.reconnectAttempts c <= m /\
  List.length (Lib.socks c) <= Lib.connects es + m * (1 + Lib.opens es).
Proof.
  intros c.
  assert (accounted m 0 0 (Lib.create (Some m))) as I
    by (unfold accounted; simpl; repeat split; lia).
  apply (accounted_run m es) in I. fold c in I. destruct I as (_ & A & B).
  split; [exact A|]. simpl in B. nia.
Qed.

Lemma set_state_nth i r l x :
  nth_error l i = Some x -> nth_error (Lib.set_state i r l) i = Some r.
Proof.
  revert i. induction l as [|y l IH]; intros [|i]; simpl; try discriminate; auto.
Qed.

Lemma pending_last h l : existsb (Nat.eqb h) (l ++ [h]) = true.
Proof.
  rewrite existsb_app. simpl. rewrite Nat.eqb_refl. now rewrite orb_true_r.
Qed.

(** X16.  [disconnect()] does not end the reconnection.  A client whose
    current socket is open and whose attempts are not used up is
    disconnected by its owner; when the socket then reports its close,
    the close handler, still installed, sets a reconnection timer, and
    when that fires the client makes a new socket and is connecting
    again. *)
Theorem reconnects_after_disconnect (c : Lib.WebSocketClient) (i : nat) :
  Lib.ws c = Some i ->
  nth_error (Lib.socks c) i = Some Lib.OPEN ->
  Lib.exhausted c = false ->
  let c1 := Lib.run [Lib.Disconnect; Lib.Closed i] c in
  let c2 := Lib.step c1 (Lib.Fired (Lib.next_timer c)) in
  Lib.ws c1 = None /\
  Lib.reconnectTimeout c1 = Some (Lib.next_timer c) /\
  Lib.reconnectAttempts c2 = S (Lib.reconnectAttempts c) /\
  Lib.ws c2 = Some (List.length (Lib.socks c)) /\
  Lib.socks c2 = Lib.set_state i Lib.CLOSED (Lib.socks c) ++ [Lib.CONNECTING].
Proof.
  intros W O X.
  destruct c as [w mx a rt sk pd nt]. cbn in W, O, X |- *. subst w.
  assert (Lib.set_state i Lib.CLOSED (Lib.set_state i Lib.CLOSING sk)
          = Lib.set_state i Lib.CLOSED sk) as SS.
  { clear. revert i. induction sk as [|y l IH]; intros [|i]; simpl; auto.
    now rewrite IH. }
  unfold Lib.disconnect. cbn.
  destruct rt as [h|]; cbn; rewrite O; cbn;
    rewrite (set_state_nth i Lib.CLOSING sk _ O); cbn;
    unfold Lib.onclose, Lib.scheduleReconnect; cbn; unfold Lib.exhausted in *; cbn in *;
    rewrite X; cbn; rewrite pending_last; unfold Lib.connect, Lib.isConnected; cbn;
    rewrite !set_state_length, SS; repeat split.
Qed.

Lemma reconnects_after_disconnect_witness :
  let c := Lib.run [Lib.Connect; Lib.Opened 0] (Lib.create (Some 3)) in
  let c1 := Lib.run [Lib.Disconnect; Lib.Closed 0] c in
  let c2 := Lib.step c1 (Lib.Fired (Lib.next_timer c)) in
  Lib.ws c1 = None /\
  Lib.reconnectTimeout c1 = Some (Lib.next_timer c) /\
  Lib.reconnectAttempts c2 = S (Lib.reconnectAttempts c) /\
  Lib.ws c2 = Some (List.length (Lib.socks c)) /\
  Lib.socks c2 = Lib.set_state 0 Lib.CLOSED (Lib.socks c) ++ [Lib.CONNECTING].
Proof.
  apply (reconnects_after_disconnect
           (Lib.run [Lib.Connect; Lib.Opened 0] (Lib.create (Some 3))) 0);
    reflexivity.
Defined.
